(** * The development-mode websocket relay of wails

    A shallow embedding of
    - [v2/internal/frontend/devserver/devserver.go] (the relay: frame
      reassembly, the read loop of one websocket connection, the
      connection registry and the broadcast paths, the routes set up by
      [Run]), and
    - the browser-side websocket IPC script (the reconnecting client with
      its outgoing queue),
    followed by the properties of the relay's specification, each settled
    against these definitions. *)

From Stdlib Require Import String Ascii List Bool Arith Lia.
From stdpp Require Import gmap strings list fin_maps.

Open Scope string_scope.

(** ** Byte strings

    Go's [[]byte] and [string] are both modelled as [string] (a sequence
    of 8-bit characters). *)
Module Bytes.

(** The double quote character, byte 34. *)
Definition dquote : ascii := "034"%char.

(** [len(s)]. *)
Definition len (s : string) : nat := String.length s.

(** [bytes.Equal]. *)
Definition Equal (a b : string) : bool := String.eqb a b.

(** [bytes.HasPrefix(s, prefix)]:
    [len(s) >= len(prefix) && Equal(s[0:len(prefix)], prefix)]. *)
Definition HasPrefix (s prefix : string) : bool :=
  Nat.leb (len prefix) (len s) && Equal (substring 0 (len prefix) s) prefix.

(** [bytes.HasSuffix(s, suffix)]:
    [len(s) >= len(suffix) && Equal(s[len(s)-len(suffix):], suffix)]. *)
Definition HasSuffix (s suffix : string) : bool :=
  Nat.leb (len suffix) (len s)
  && Equal (substring (len s - len suffix) (len suffix) s) suffix.

(** [s[:n]]; every use in the relay is guarded by [len(s) > n], where Go
    would panic otherwise. *)
Definition slice_to (n : nat) (s : string) : string := substring 0 n s.

(** [s[n:]], under the same guard. *)
Definition slice_from (n : nat) (s : string) : string :=
  substring n (len s - n) s.

(** The concatenation of a sequence of frames, oldest first. *)
Definition join (frames : list string) : string :=
  fold_right String.append EmptyString frames.

(** [strings.Contains(s, substr)]: [Index(s, substr) >= 0]. *)
Definition Contains (s substr : string) : bool :=
  match String.index 0 substr s with
  | Some _ => true
  | None => false
  end.

End Bytes.
Import Bytes.

(** ** Frame reassembly ([handleIPCWebSocket], the head of the read loop) *)
Module Reassembler.

(** The three bytes [C], [{] and a double quote that open a fragmented
    call message. *)
Definition marker : string := String "C" (String "{" (String dquote EmptyString)).

(** The two bytes, a double quote and [}], that close it. *)
Definition closer : string := String dquote (String "}" EmptyString).

(** The frames still to be delivered on one connection, oldest first.
    [websocket.Message.Receive] takes the head; on an exhausted stream
    it fails (the peer has gone). *)
Definition Receive (conn : list string) : option (string * list string) :=
  match conn with
  | [] => None
  | msg :: conn' => Some (msg, conn')
  end.

(** The inner [for]: [buffer] holds what has been written so far and
    [msg] is the frame received last.  The loop leaves when [msg] ends
    with [closer]; otherwise it receives one more frame, appends it to
    the buffer and goes round.  A failed [Receive] returns from the
    handler ([None]). *)
Fixpoint collect (buffer msg : string) (conn : list string)
  : option (string * list string) :=
  if HasSuffix msg closer then Some (buffer, conn)
  else match conn with
       | [] => None
       | msg' :: conn' => collect (buffer ++ msg') msg' conn'
       end.

(** One pass through the head of the outer [for]: receive a frame,
    write it to the buffer, collect more frames when it begins with
    [marker], and hand out [fullMsg] with the frames left over. *)
Definition receiveFull (conn : list string) : option (string * list string) :=
  match Receive conn with
  | None => None
  | Some (msg, conn') =>
      if HasPrefix msg marker then collect msg msg conn'
      else Some (msg, conn')
  end.

End Reassembler.

(** ** The relay ([devserver.go]) *)
Module DevServer.

(** The text of a Go [error] ([err.Error()]). *)
Definition error : Type := string.

(** A Go result pair [(value, err)] with [err] deciding. *)
Inductive outcome (A : Type) : Type :=
| Ok (a : A)
| Err (e : error).
Arguments Ok {A} a.
Arguments Err {A} e.

(** What [encoding/json] decodes into an [interface{}]. Numbers keep
    their literal text. *)
#[local] Unset Elimination Schemes.
Inductive json : Type :=
| JNull
| JBool (b : bool)
| JNumber (literal : string)
| JString (s : string)
| JArray (items : list json)
| JObject (fields : list (string * json)).
#[local] Set Elimination Schemes.

(** [type EventNotify struct { Name string; Data []interface{} }]. *)
Record EventNotify : Type := { Name : string; Data : list json }.

(** A [*websocket.Conn] is modelled by its address; [nil] is address 0. *)
Definition nilConn : N := 0%N.

(** The methods of [frontend.Frontend] that [DevWebServer] implements
    itself; the dispatcher is handed the server as its [sender] and may
    call them while it processes a message.  Every other method is
    promoted from the embedded desktop frontend and touches nothing of
    the relay. *)
Inductive FrontendCall : Type :=
| CallWindowReload
| CallWindowReloadApp
| CallNotify (name : string) (data : list json).

(** The collaborators of the relay that live outside this file: the
    application's dispatcher (the interface [frontend.Dispatcher], with
    a state of its own), [encoding/json], and the outcome of writing to
    a websocket. *)
Class Externals : Type := {
  (** the state behind the [frontend.Dispatcher] interface value *)
  dispatcher_state : Type;
  (** [ProcessMessage(message, sender) (string, error)]: the calls it
      makes on [sender], the pair it returns, and its next state *)
  ProcessMessage :
    dispatcher_state → string →
    list FrontendCall * (string * option error) * dispatcher_state;
  (** [json.Marshal(notification)] *)
  json_Marshal : EventNotify → outcome string;
  (** [json.Unmarshal(data, &notifyMessage)] *)
  json_Unmarshal : string → outcome EventNotify;
  (** the error, if any, of [websocket.Message.Send(client, message)] *)
  Send_error : N → string → option error;
}.

(** What the relay does to the world, in the order it does it.  The
    deliveries of one broadcast are separate goroutines: the order in
    which one broadcast lists them carries no meaning. *)
Inductive effect : Type :=
| Message_Send (client : N) (message : string)
| logger_Error (text : string)
| Frontend_Notify (name : string) (data : list json)
| Frontend_WindowReload
| Frontend_WindowReloadApp
| dispatcher_ProcessMessage (message : string).

(** [type WebsocketInfo struct { eventCache sync.Map }].  The relay only
    ever stores [true]. *)
Record WebsocketInfo : Type := { eventCache : gmap string bool }.

(** [&WebsocketInfo{}]. *)
Definition emptyInfo : WebsocketInfo := {| eventCache := ∅ |}.

(** [info.eventCache.Store(key, value)]. *)
Definition Store (key : string) (value : bool) (info : WebsocketInfo)
  : WebsocketInfo :=
  {| eventCache := <[key := value]> (eventCache info) |}.

(** [info.eventCache.Delete(key)]. *)
Definition Delete (key : string) (info : WebsocketInfo) : WebsocketInfo :=
  {| eventCache := delete key (eventCache info) |}.

(** [cache.Load(key)]: [Some] is the [ok] result. *)
Definition Load (key : string) (info : WebsocketInfo) : option bool :=
  eventCache info !! key.

Section Relay.
Context `{Ext : Externals}.

(** The fields of [DevWebServer] the relay reads or writes.  The map
    holds pointers to [WebsocketInfo]; each is shared by exactly the
    map entry of its connection and that connection's read loop, so a
    write through the read loop's pointer is a write to the entry. *)
Record DevWebServer : Type := {
  websocketClients : gmap N WebsocketInfo;
  dispatcher : dispatcher_state;
}.

Definition with_clients (d : DevWebServer)
    (clients : gmap N WebsocketInfo) : DevWebServer :=
  {| websocketClients := clients; dispatcher := dispatcher d |}.

Definition with_dispatcher (d : DevWebServer)
    (s : dispatcher_state) : DevWebServer :=
  {| websocketClients := websocketClients d; dispatcher := s |}.

(** [err := websocket.Message.Send(client, message)] followed by
    [if err != nil { d.logger.Error(err.Error()); return }]. *)
Definition send_logged (client : N) (message : string) : list effect :=
  Message_Send client message ::
  match Send_error client message with
  | Some e => [logger_Error e]
  | None => []
  end.

(** The goroutine [broadcast] starts for one map entry. *)
Definition broadcast_one (message name : string)
    (entry : N * WebsocketInfo) : list effect :=
  let '(client, info) := entry in
  if N.eqb client nilConn then
    [logger_Error "Lost connection to websocket server"]
  else if negb (String.eqb name "") then
    match Load name info with
    | None => []
    | Some _ => send_logged client message
    end
  else send_logged client message.

(** [func (d *DevWebServer) broadcast(message string, name string)]. *)
Definition broadcast (d : DevWebServer) (message name : string)
  : list effect :=
  map_to_list (websocketClients d) ≫= broadcast_one message name.

(** [func (d *DevWebServer) notify(name string, data ...interface{})]. *)
Definition notify (d : DevWebServer) (name : string) (data : list json)
  : list effect :=
  match json_Marshal {| Name := name; Data := data |} with
  | Err e => [logger_Error e]
  | Ok payload => broadcast d ("n" ++ payload) name
  end.

(** The goroutine [broadcastExcludingSender] starts for one entry. *)
Definition broadcastExcludingSender_one (message : string) (sender : N)
    (entry : N * WebsocketInfo) : list effect :=
  let '(client, _) := entry in
  if N.eqb client sender then [] else send_logged client message.

(** [func (d *DevWebServer) broadcastExcludingSender(message, sender)]. *)
Definition broadcastExcludingSender (d : DevWebServer)
    (message : string) (sender : N) : list effect :=
  map_to_list (websocketClients d)
    ≫= broadcastExcludingSender_one message sender.

(** [func (d *DevWebServer) notifyExcludingSender(eventMessage, sender)]. *)
Definition notifyExcludingSender (d : DevWebServer)
    (eventMessage : string) (sender : N) : list effect :=
  let message := "n" ++ slice_from 2 eventMessage in
  broadcastExcludingSender d message sender ++
  match json_Unmarshal (slice_from 2 eventMessage) with
  | Err e => [logger_Error e]
  | Ok notifyMessage =>
      [Frontend_Notify (Name notifyMessage) (Data notifyMessage)]
  end.

(** [func (d *DevWebServer) WindowReload()]. *)
Definition WindowReload (d : DevWebServer) : list effect :=
  broadcast d "reload" "" ++ [Frontend_WindowReload].

(** [func (d *DevWebServer) WindowReloadApp()]. *)
Definition WindowReloadApp (d : DevWebServer) : list effect :=
  broadcast d "reloadapp" "" ++ [Frontend_WindowReloadApp].

(** [func (d *DevWebServer) Notify(name string, data ...interface{})]. *)
Definition Notify (d : DevWebServer) (name : string) (data : list json)
  : list effect :=
  notify d name data.

(** [handleReload]: the reload, then status 204 with no content. *)
Definition handleReload (d : DevWebServer) : list effect * nat :=
  (WindowReload d, 204).

(** [handleReloadApp]. *)
Definition handleReloadApp (d : DevWebServer) : list effect * nat :=
  (WindowReloadApp d, 204).

(** A call of the dispatcher on its [sender]. *)
Definition run_call (d : DevWebServer) (call : FrontendCall)
  : list effect :=
  match call with
  | CallWindowReload => WindowReload d
  | CallWindowReloadApp => WindowReloadApp d
  | CallNotify name data => Notify d name data
  end.

(** How one pass through the read loop ends: on to the next
    [Receive], or out of the loop (close and unregister). *)
Inductive next : Type :=
| Continue
| Break.

(** The tail of the loop body: the message goes to the dispatcher;
    an error is logged; a non-empty result is written back to the
    connection the message came from, and a failed write leaves the
    loop. *)
Definition dispatch (d : DevWebServer) (c : N) (fullMsg : string)
  : DevWebServer * list effect * next :=
  let '(calls, (result, err), s') := ProcessMessage (dispatcher d) fullMsg in
  let d' := with_dispatcher d s' in
  let called := dispatcher_ProcessMessage fullMsg :: (calls ≫= run_call d') in
  let logged :=
    match err with
    | Some e => [logger_Error e]
    | None => []
    end in
  if negb (String.eqb result "") then
    (d', (called ++ logged ++ [Message_Send c result])%list,
     match Send_error c result with
     | Some _ => Break
     | None => Continue
     end)
  else (d', (called ++ logged)%list, Continue).

(** The body of the read loop of connection [c] from the point where
    [fullMsg] is complete.  The [info] of the source is the entry of
    [c] in the map. *)
Definition loopBody (d : DevWebServer) (c : N) (fullMsg : string)
  : DevWebServer * list effect * next :=
  if Nat.eqb (len fullMsg) 4 && String.eqb fullMsg "drag" then
    (d, [], Continue)
  else if Nat.ltb 2 (len fullMsg) then
    if String.eqb (slice_to 2 fullMsg) "EE" then
      let notified := notifyExcludingSender d fullMsg c in
      let '(d', effects, nxt) := dispatch d c fullMsg in
      (d', (notified ++ effects)%list, nxt)
    else if String.eqb (slice_to 2 fullMsg) "EB" then
      (with_clients d
         (alter (Store (slice_from 2 fullMsg) true) c (websocketClients d)),
       [], Continue)
    else if String.eqb (slice_to 2 fullMsg) "EX" then
      dispatch
        (with_clients d
           (alter (Delete (slice_from 2 fullMsg)) c (websocketClients d)))
        c fullMsg
    else dispatch d c fullMsg
  else dispatch d c fullMsg.

(** The start of the handler: [d.websocketClients[c] = &WebsocketInfo{}]. *)
Definition register (d : DevWebServer) (c : N) : DevWebServer :=
  with_clients d (<[c := emptyInfo]> (websocketClients d)).

(** The deferred [delete(d.websocketClients, c)]. *)
Definition unregister (d : DevWebServer) (c : N) : DevWebServer :=
  with_clients d (delete c (websocketClients d)).

(** The outer [for] of the handler of connection [c], on the frames
    [conn] that connection still delivers.  Every pass takes at least
    one frame, so [fuel] above the number of frames is never used up;
    [None] is fuel exhausted. *)
Fixpoint readLoop (fuel : nat) (d : DevWebServer) (c : N)
    (conn : list string) : option (DevWebServer * list effect) :=
  match fuel with
  | O => None
  | S fuel' =>
      match Reassembler.receiveFull conn with
      | None => Some (d, [])
      | Some (fullMsg, conn') =>
          match loopBody d c fullMsg with
          | (d', effects, Break) => Some (d', effects)
          | (d', effects, Continue) =>
              match readLoop fuel' d' c conn' with
              | None => None
              | Some (d2, effects') => Some (d2, (effects ++ effects')%list)
              end
          end
      end
  end.

(** The websocket handler of [handleIPCWebSocket] for a connection
    served with no other connection active meanwhile: register, run
    the read loop, unregister.  The debug log lines and the deferred
    [c.Close()] are not recorded. *)
Definition handleIPCWebSocket (d : DevWebServer) (c : N)
    (conn : list string) : option (DevWebServer * list effect) :=
  match readLoop (S (List.length conn)) (register d c) c conn with
  | None => None
  | Some (d', effects) => Some (unregister d' c, effects)
  end.

(** Complete messages arriving on registered connections, in the order
    their read loops take them up; a pass that leaves its loop runs
    the deferred unregistration. *)
Fixpoint serve (d : DevWebServer) (arrivals : list (N * string))
  : DevWebServer * list effect :=
  match arrivals with
  | [] => (d, [])
  | (c, fullMsg) :: arrivals' =>
      let '(d', effects, nxt) := loopBody d c fullMsg in
      let d1 := match nxt with
                | Continue => d'
                | Break => unregister d' c
                end in
      let '(d2, effects') := serve d1 arrivals' in
      (d2, (effects ++ effects')%list)
  end.

(** [NewFrontend]: the server as constructed, around the dispatcher it
    is given, with [make(map[*websocket.Conn]*WebsocketInfo)]. *)
Definition NewFrontend (dispatcher : dispatcher_state) : DevWebServer :=
  {| websocketClients := ∅; dispatcher := dispatcher |}.

(** Connection [c], as long as it is registered, holds a subscription
    to [name]. *)
Definition holds (d : DevWebServer) (c : N) (name : string) : Prop :=
  ∀ info, websocketClients d !! c = Some info → is_Some (Load name info).

End Relay.

(** The effects a broadcast is made of: writes and log lines. *)
Definition writes_or_logs (e : effect) : Prop :=
  match e with
  | Message_Send _ _ | logger_Error _ => True
  | _ => False
  end.

(** The connections a list of effects writes to, in its order. *)
Definition recipients (effects : list effect) : list N :=
  omap (λ e, match e with
             | Message_Send client _ => Some client
             | _ => None
             end) effects.

(** The branches of the loop body, in the order it tests for them. *)
Inductive branch : Type :=
| Drag
| EventEmit
| EventBind
| EventOff
| Other.

(** The branch a complete message takes. *)
Definition branch_of (fullMsg : string) : branch :=
  if Nat.eqb (len fullMsg) 4 && String.eqb fullMsg "drag" then Drag
  else if Nat.ltb 2 (len fullMsg) then
    if String.eqb (slice_to 2 fullMsg) "EE" then EventEmit
    else if String.eqb (slice_to 2 fullMsg) "EB" then EventBind
    else if String.eqb (slice_to 2 fullMsg) "EX" then EventOff
    else Other
  else Other.

End DevServer.

(** ** The routes set up by [Run] ([devserver.go]) *)
Module Routes.
Import DevServer.

(** What of an HTTP request the routing looks at.  [upgrade] is echo's
    [c.IsWebSocket()]: the request carries [Upgrade: websocket]. *)
Record request : Type := {
  method : string;
  path : string;
  upgrade : bool;
}.

(** The handlers [Run] registers, and the two answers of echo itself:
    404 and 405. *)
Inductive handler : Type :=
| h_handleReload
| h_handleIPCWebSocket
| h_assetdir
| h_catchAll
| h_NotFound
| h_MethodNotAllowed.

(** A registered route: [Some m] for one method, [None] for [Any]. *)
Record route : Type := {
  r_method : option string;
  r_path : string;
  r_handler : handler;
}.

(** [http.Handler] values that [Run] builds: the reverse proxy to the
    frontend dev server and the asset server. *)
Inductive http_handler : Type :=
| ReverseProxy (target : string)
| AssetServer.

(** What [Run] has set up by the time the catch-all route is
    registered. [wsHandler] is [None] for a nil interface value. *)
Record setup : Type := {
  routes : list route;
  wsHandler : option http_handler;
}.

Section Run.
(** The error, if any, of [assetserver.BuildAssetServerConfig]. *)
Variable BuildAssetServerConfig : option error.

(** [url.Parse]: the parsed target or the error. *)
Variable url_Parse : string → outcome string.

(** [Run], from its first line to the registration of the catch-all
    route, for the value [frontenddevserverurl] of the context.  The
    routes are listed in the order of registration.  The asset handler,
    the bindings and the asset server are taken to be built without
    error (the process exits otherwise). *)
Definition Run (frontendDevServerURL : string) : outcome setup :=
  match BuildAssetServerConfig with
  | Some e => Err e
  | None =>
  let fixed :=
    [ {| r_method := Some "GET"; r_path := "/wails/reload";
         r_handler := h_handleReload |};
      {| r_method := Some "GET"; r_path := "/wails/ipc";
         r_handler := h_handleIPCWebSocket |} ] in
  let catchAll :=
    {| r_method := None; r_path := "/*"; r_handler := h_catchAll |} in
  if String.eqb frontendDevServerURL "" then
    Ok {| routes :=
            (fixed ++
             [ {| r_method := Some "GET"; r_path := "/wails/assetdir";
                  r_handler := h_assetdir |} ] ++ [catchAll])%list;
          wsHandler := None |}
  else
    match url_Parse frontendDevServerURL with
    | Err e => Err e
    | Ok externalURL =>
        Ok {| routes := (fixed ++ [catchAll])%list;
              wsHandler := Some (ReverseProxy externalURL) |}
    end
  end.
End Run.

(** A route for one method and one fixed path serves a request of that
    method and path. *)
Definition matches_static (rq : request) (r : route) : bool :=
  match r_method r with
  | Some m => String.eqb m (method rq) && String.eqb (r_path r) (path rq)
  | None => false
  end.

(** The methods for which echo's [Any] registers its handler: the
    list [methods] of echo v4.  A request with any other method has no
    handler on an [Any] route. *)
Definition echo_methods : list string :=
  ["CONNECT"; "DELETE"; "GET"; "HEAD"; "OPTIONS"; "PATCH"; "POST";
   "PROPFIND"; "PUT"; "TRACE"; "REPORT"].

Definition registered_by_Any (m : string) : bool :=
  existsb (String.eqb m) echo_methods.

(** A route for one method and one fixed path whose path is that of the
    request. *)
Definition matches_path (rq : request) (r : route) : bool :=
  match r_method r with
  | Some _ => String.eqb (r_path r) (path rq)
  | None => false
  end.

(** A route registered with [Any].  The only one [Run] registers is for
    [/*], which matches every path. *)
Definition is_Any (r : route) : bool :=
  match r_method r with
  | None => true
  | Some _ => false
  end.

Section Router.
(** What echo does with a request for a fixed path that is registered
    for other methods only: it goes on to the wildcard route ([true],
    the router of echo from v4.2 on) or answers 405 at once ([false],
    the router before).  The version of echo is fixed outside the
    files at hand. *)
Variable backtracks : bool.

(** echo's router on the routes above.  A fixed path registered for the
    request's method wins.  Otherwise the request falls to the [Any]
    route, whose handler is there for the methods of [echo_methods]
    only; a request that finds a matching path but no handler for its
    method is answered 405, one that finds no path 404. *)
Definition find_route (rs : list route) (rq : request) : handler :=
  match List.find (matches_static rq) rs with
  | Some r => r_handler r
  | None =>
      if existsb (matches_path rq) rs && negb backtracks
      then h_MethodNotAllowed
      else
        match List.find is_Any rs with
        | Some r =>
            if registered_by_Any (method rq) then r_handler r
            else h_MethodNotAllowed
        | None =>
            if existsb (matches_path rq) rs then h_MethodNotAllowed
            else h_NotFound
        end
  end.
End Router.

(** Where a request ends up. *)
Inductive served : Type :=
| by_handleReload
| by_handleIPCWebSocket
| by_assetdir
| by_http (h : http_handler)
| nil_dereference
| not_found
| method_not_allowed.

(** The function registered for [/*]: a websocket request goes to
    [wsHandler.ServeHTTP], anything else to the asset server.  A method
    call on a nil interface value panics. *)
Definition catchAll (s : setup) (rq : request) : served :=
  if upgrade rq then
    match wsHandler s with
    | Some h => by_http h
    | None => nil_dereference
    end
  else by_http AssetServer.

(** One request against the server [Run] has set up. *)
Definition ServeHTTP (backtracks : bool) (s : setup) (rq : request)
  : served :=
  match find_route backtracks (routes s) rq with
  | h_handleReload => by_handleReload
  | h_handleIPCWebSocket => by_handleIPCWebSocket
  | h_assetdir => by_assetdir
  | h_catchAll => catchAll s rq
  | h_NotFound => not_found
  | h_MethodNotAllowed => method_not_allowed
  end.

(** The paths [Run] registers a handler of their own for when no
    frontend dev server is configured. *)
Definition fixed_path (p : string) : Prop :=
  p = "/wails/reload" ∨ p = "/wails/ipc" ∨ p = "/wails/assetdir".

End Routes.

(** ** The browser-side websocket IPC script *)
Module Client.

(** The [readyState] of a [WebSocket] while the script still holds it. *)
Inductive readyState : Type :=
| CONNECTING
| OPEN.

(** The module-level variables of the script, and what it has handed to
    the transport and to the runtime so far.
    - [wailsInvokeInternal]: [false] for [null], [true] once
      [setupIPCBridge] has assigned the sending function;
    - [websocket]: [None] for [null];
    - [connectTimer]: whether the timer set last is still running;
    - [wire]: the arguments of [websocket.send], oldest first;
    - [rebinds]: the calls of [window.runtime.EventsRebind];
    - [overlay]: whether the reconnect overlay is shown. *)
Record state : Type := {
  wailsInvokeInternal : bool;
  messageQueue : list string;
  websocket : option readyState;
  connectTimer : bool;
  wire : list string;
  rebinds : nat;
  overlay : bool;
}.

(** How a call ends: normally, or by an exception thrown in the state
    reached ([null.send] is a [TypeError], [send] on a socket that is
    still connecting an [InvalidStateError]). *)
Inductive completion : Type :=
| Normal (st : state)
| Thrown (st : state).

(** The script as first evaluated, before [connect()]. *)
Definition initial : state :=
  {| wailsInvokeInternal := false; messageQueue := []; websocket := None;
     connectTimer := false; wire := []; rebinds := 0; overlay := false |}.

Definition set_queue (q : list string) (st : state) : state :=
  {| wailsInvokeInternal := wailsInvokeInternal st; messageQueue := q;
     websocket := websocket st; connectTimer := connectTimer st;
     wire := wire st; rebinds := rebinds st; overlay := overlay st |}.

Definition set_wire (w : list string) (st : state) : state :=
  {| wailsInvokeInternal := wailsInvokeInternal st;
     messageQueue := messageQueue st;
     websocket := websocket st; connectTimer := connectTimer st;
     wire := w; rebinds := rebinds st; overlay := overlay st |}.

Definition set_websocket (ws : option readyState) (st : state) : state :=
  {| wailsInvokeInternal := wailsInvokeInternal st;
     messageQueue := messageQueue st;
     websocket := ws; connectTimer := connectTimer st;
     wire := wire st; rebinds := rebinds st; overlay := overlay st |}.

Definition set_bridge (st : state) : state :=
  {| wailsInvokeInternal := true; messageQueue := messageQueue st;
     websocket := websocket st; connectTimer := connectTimer st;
     wire := wire st; rebinds := rebinds st; overlay := overlay st |}.

Definition set_timer (t : bool) (st : state) : state :=
  {| wailsInvokeInternal := wailsInvokeInternal st;
     messageQueue := messageQueue st;
     websocket := websocket st; connectTimer := t;
     wire := wire st; rebinds := rebinds st; overlay := overlay st |}.

Definition set_overlay (o : bool) (st : state) : state :=
  {| wailsInvokeInternal := wailsInvokeInternal st;
     messageQueue := messageQueue st;
     websocket := websocket st; connectTimer := connectTimer st;
     wire := wire st; rebinds := rebinds st; overlay := o |}.

Definition count_rebind (st : state) : state :=
  {| wailsInvokeInternal := wailsInvokeInternal st;
     messageQueue := messageQueue st;
     websocket := websocket st; connectTimer := connectTimer st;
     wire := wire st; rebinds := S (rebinds st); overlay := overlay st |}.

(** The function [setupIPCBridge] assigns to [wailsInvokeInternal]:
    [websocket.send(message)] on the socket the variable holds now. *)
Definition send (message : string) (st : state) : completion :=
  match websocket st with
  | Some OPEN => Normal (set_wire (wire st ++ [message]) st)
  | Some CONNECTING => Thrown st
  | None => Thrown st
  end.

(** [window.WailsInvoke]. *)
Definition WailsInvoke (message : string) (st : state) : completion :=
  if negb (wailsInvokeInternal st) then
    Normal (set_queue (messageQueue st ++ [message]) st)
  else send message st.

(** The [for] of [setupIPCBridge] from index [i] on; [n] bounds the
    passes left.  The bridge is set when the loop runs, so the calls
    of [WailsInvoke] do not extend the queue and the length read at
    entry is the length read by every test [i < messageQueue.length]. *)
Fixpoint drain (n i : nat) (st : state) : completion :=
  match n with
  | O => Normal st
  | S n' =>
      match messageQueue st !! i with
      | None => Normal st
      | Some message =>
          match WailsInvoke message st with
          | Normal st' => drain n' (S i) st'
          | Thrown st' => Thrown st'
          end
      end
  end.

(** [setupIPCBridge]. *)
Definition setupIPCBridge (st : state) : completion :=
  let st1 := set_bridge st in
  match drain (List.length (messageQueue st1)) 0 st1 with
  | Normal st2 => Normal (set_queue [] st2)
  | Thrown st2 => Thrown st2
  end.

(** [_connect]: a new socket when there is none. *)
Definition _connect (st : state) : state :=
  match websocket st with
  | None => set_websocket (Some CONNECTING) st
  | Some _ => st
  end.

(** [connect]: one attempt now and the timer for the next ones. *)
Definition connect (st : state) : state :=
  set_timer true (_connect st).

(** [websocket.onopen = handleConnect]: the socket held has opened. *)
Definition handleConnect (st : state) : completion :=
  let st0 :=
    match websocket st with
    | Some _ => set_websocket (Some OPEN) st
    | None => st
    end in
  match setupIPCBridge (set_overlay false st0) with
  | Normal st1 => Normal (count_rebind (set_timer false st1))
  | Thrown st1 => Thrown st1
  end.

(** [websocket.onclose = handleDisconnect]. *)
Definition handleDisconnect (st : state) : state :=
  connect (set_overlay true (set_websocket None st)).

(** [websocket.onerror]. *)
Definition onerror (st : state) : state := set_websocket None st.

(** What happens to the page, one handler at a time: a call of
    [window.WailsInvoke], the callback of the connect timer, and the
    [onopen], [onclose] and [onerror] handlers of the socket held. *)
Inductive event : Type :=
| Invoke (message : string)
| Tick
| Opened
| Closed
| Failed.

(** One event; an exception ends the event's handler and leaves the
    state the handler had reached. *)
Definition step (st : state) (e : event) : state :=
  match e with
  | Invoke message =>
      match WailsInvoke message st with
      | Normal st' => st'
      | Thrown st' => st'
      end
  | Tick => if connectTimer st then _connect st else st
  | Opened =>
      match handleConnect st with
      | Normal st' => st'
      | Thrown st' => st'
      end
  | Closed => handleDisconnect st
  | Failed => onerror st
  end.

(** The page from the evaluation of the script on. *)
Definition run (events : list event) : state :=
  fold_left step events (connect initial).

(** The messages a list of events submits, in order. *)
Definition invoked (events : list event) : list string :=
  omap (λ e, match e with
             | Invoke message => Some message
             | _ => None
             end) events.

(** A handler of a socket runs for a socket: [onopen] fires on the
    socket the script holds. *)
Definition admissible_step (st : state) (e : event) : bool :=
  match e with
  | Opened => match websocket st with
              | Some _ => true
              | None => false
              end
  | _ => true
  end.

(** A sequence of events in which every [Opened] finds a socket held. *)
Fixpoint admissible (st : state) (events : list event) : bool :=
  match events with
  | [] => true
  | e :: events' => admissible_step st e && admissible (step st e) events'
  end.

(** What [handleMessage] does with a message from the server.  Strings
    are taken as bytes; the tags tested are ASCII. *)
Inductive reaction : Type :=
| runtime_WindowReload
| runtime_WindowReloadApp
| wails_EventsNotify (data : string)
| wails_Callback (data : string)
| log_unknown (text : string).

(** [handleMessage], on [message.data].  [data[0]] of the empty string
    is [undefined] and falls to the default case; [data.slice(1)] is
    the rest after the first character. *)
Definition handleMessage (data : string) : reaction :=
  if String.eqb data "reload" then runtime_WindowReload
  else if String.eqb data "reloadapp" then runtime_WindowReloadApp
  else
    match data with
    | String tag rest =>
        if Ascii.eqb tag "n" then wails_EventsNotify rest
        else if Ascii.eqb tag "c" then wails_Callback rest
        else log_unknown ("Unknown message: " ++ data)
    | EmptyString => log_unknown ("Unknown message: " ++ data)
    end.

(** The variables [host] and [protocol]; [None] is [null]. *)
Record locator : Type := {
  host : option string;
  protocol : option string;
}.

(** What [get_host] reads of the page: the [src] of
    [document.currentScript] when there is one, the [src] of the last
    [script] element when there is one, and [window.location]. *)
Record page : Type := {
  currentScript_src : option string;
  lastScript_src : option string;
  location_host : string;
  location_protocol : string;
}.

(** A string is truthy when it is not empty; [null] is not. *)
Definition truthy (v : option string) : bool :=
  match v with
  | Some s => negb (String.eqb s "")
  | None => false
  end.

Section Host.
(** [new URL(src)]: the [host] and [protocol] of the URL, or [None] when
    the constructor throws. *)
Variable URL : string → option (string * string).

(** [get_host]; [None] when [new URL] throws, with nothing assigned. *)
Definition get_host (pg : page) (loc : locator) : option locator :=
  if truthy (host loc) then Some loc
  else
    let currentScript :=
      match currentScript_src pg with
      | Some src => Some src
      | None => lastScript_src pg
      end in
    match currentScript with
    | Some scriptSrc =>
        match URL scriptSrc with
        | Some (h, p) => Some {| host := Some h; protocol := Some p |}
        | None => None
        end
    | None =>
        Some {| host := Some (location_host pg);
                protocol := Some (location_protocol pg) |}
    end.
End Host.

(** The address [_connect] opens the socket to, once [get_host] has
    run: [wss] when the protocol starts with [https]. *)
Definition socket_url (loc : locator) : option string :=
  match host loc, protocol loc with
  | Some h, Some p =>
      Some ((if String.prefix "https" p then "wss://" else "ws://")
            ++ h ++ "/wails/ipc")
  | _, _ => None
  end.

(** What the events so far permit: the wire followed by the queue is
    made of submitted messages in their order, and nothing is queued
    once the bridge is set up. *)
Definition in_order (st : state) (submitted : list string) : Prop :=
  (wire st ++ messageQueue st)%list `sublist_of` submitted
  ∧ (wailsInvokeInternal st = true → messageQueue st = []).

End Client.

(** ** The asset server of dev mode ([assetserver_dev.go]) *)
Module AssetServerDev.
Import DevServer.

(** The interface [RuntimeAssets], as far as it is used here. *)
Record RuntimeAssets : Type := {
  DesktopIPC : string;
  WebsocketIPC : string;
}.

(** The fields of [AssetServer] that [NewDevAssetServer] sets; [ipcJS]
    is given the [User-Agent] of the request, and is [None] while not
    set. *)
Record AssetServer : Type := {
  appendSpinnerToBody : bool;
  ipcJS : option (string → string);
}.

Section NewDevAssetServer.
(** The constant [WailsUserAgentValue], declared elsewhere in the
    package. *)
Variable WailsUserAgentValue : string.

(** [NewDevAssetServer], given what [NewAssetServerWithHandler]
    returned. *)
Definition NewDevAssetServer (base : outcome AssetServer)
    (runtime : RuntimeAssets) : outcome AssetServer :=
  match base with
  | Err e => Err e
  | Ok _ =>
      Ok {| appendSpinnerToBody := true;
            ipcJS := Some (λ userAgent,
              if Contains userAgent WailsUserAgentValue
              then DesktopIPC runtime
              else WebsocketIPC runtime) |}
  end.
End NewDevAssetServer.

End AssetServerDev.

(** ** Concrete inputs used below *)
Module Examples.
Import Reassembler.

(** The message of the specification's example, [C{ a : b }] with its
    four double quotes, and three ways to cut it into frames. *)
Definition q : string := String dquote "".
Definition example_message : string :=
  marker ++ "a" ++ q ++ ":" ++ q ++ "b" ++ closer.
Definition cut_in_marker : list string :=
  ["C"; "{" ++ q ++ "a" ++ q ++ ":" ++ q ++ "b" ++ closer].
Definition cut_in_closer : list string :=
  [marker ++ "a" ++ q ++ ":" ++ q ++ "b" ++ q; "}"].
Definition cut_in_value : list string :=
  [marker ++ "a"; q ++ ":"; q ++ "b" ++ closer].

Import DevServer.

(** The payload of the specification's event scenario, the JSON object
    with name [ping] and empty data, and what it decodes to. *)
Definition ping_payload : string :=
  "{" ++ q ++ "name" ++ q ++ ":" ++ q ++ "ping" ++ q ++ ","
      ++ q ++ "data" ++ q ++ ":[]}".
Definition ping : EventNotify := {| Name := "ping"; Data := [] |}.

(** JSON restricted to that one object. *)
Definition ping_Marshal (n : EventNotify) : outcome string :=
  match n with
  | {| Name := name; Data := [] |} =>
      if String.eqb name "ping" then Ok ping_payload
      else Err "json: unsupported value"
  | _ => Err "json: unsupported value"
  end.
Definition ping_Unmarshal (data : string) : outcome EventNotify :=
  if String.eqb data ping_payload then Ok ping
  else Err "invalid character".

(** A dispatcher that calls nothing and answers nothing, over writes
    that succeed. *)
Definition quiet : Externals :=
  {| dispatcher_state := unit;
     ProcessMessage := λ _ _, ([], ("", None), tt);
     json_Marshal := ping_Marshal;
     json_Unmarshal := ping_Unmarshal;
     Send_error := λ _ _, None |}.

(** A dispatcher that returns a result together with an error. *)
Definition noisy : Externals :=
  {| dispatcher_state := unit;
     ProcessMessage := λ _ _, ([], ("cresult", Some "handler failed"), tt);
     json_Marshal := ping_Marshal;
     json_Unmarshal := ping_Unmarshal;
     Send_error := λ _ _, None |}.

(** Three connections at addresses 1, 2 and 3, of which the second has
    subscribed to [ping]. *)
Definition A : N := 1%N.
Definition B : N := 2%N.
Definition C : N := 3%N.
Definition three_clients : gmap N WebsocketInfo :=
  <[A := emptyInfo]>
    (<[B := Store "ping" true emptyInfo]> (<[C := emptyInfo]> ∅)).
Definition quiet_server : @DevWebServer quiet :=
  @Build_DevWebServer quiet three_clients tt.
Definition noisy_server : @DevWebServer noisy :=
  @Build_DevWebServer noisy three_clients tt.

Import Routes.

(** What [Run] sets up when no frontend dev server is configured. *)
Definition no_dev_server : setup :=
  {| routes :=
       [ {| r_method := Some "GET"; r_path := "/wails/reload";
            r_handler := h_handleReload |};
         {| r_method := Some "GET"; r_path := "/wails/ipc";
            r_handler := h_handleIPCWebSocket |};
         {| r_method := Some "GET"; r_path := "/wails/assetdir";
            r_handler := h_assetdir |};
         {| r_method := None; r_path := "/*"; r_handler := h_catchAll |} ];
     wsHandler := None |}.

(** A websocket request for the asset directory path. *)
Definition assetdir_upgrade : request :=
  {| method := "GET"; path := "/wails/assetdir"; upgrade := true |}.

(** A request with the websocket header and a method of its own. *)
Definition foo_upgrade : request :=
  {| method := "FOO"; path := "/x"; upgrade := true |}.

(** Writes to connection [C] fail. *)
Definition flaky : Externals :=
  {| dispatcher_state := unit;
     ProcessMessage := λ _ _, ([], ("", None), tt);
     json_Marshal := ping_Marshal;
     json_Unmarshal := ping_Unmarshal;
     Send_error := λ c _, if N.eqb c C then Some "broken pipe" else None |}.
Definition flaky_server : @DevWebServer flaky :=
  @Build_DevWebServer flaky three_clients tt.

(** What [Run] sets up for a frontend dev server at the usual address
    of Vite. *)
Definition vite_setup : setup :=
  {| routes :=
       [ {| r_method := Some "GET"; r_path := "/wails/reload";
            r_handler := h_handleReload |};
         {| r_method := Some "GET"; r_path := "/wails/ipc";
            r_handler := h_handleIPCWebSocket |};
         {| r_method := None; r_path := "/*"; r_handler := h_catchAll |} ];
     wsHandler := Some (ReverseProxy "http://localhost:5173") |}.

(** A page whose script comes from the dev server, the same page later
    with no script to be found, and a URL constructor that knows that
    one script. *)
Definition script_page : Client.page :=
  {| Client.currentScript_src := Some "http://localhost:34115/wails/ipc.js";
     Client.lastScript_src := None;
     Client.location_host := "localhost:5173";
     Client.location_protocol := "http:" |}.
Definition other_page : Client.page :=
  {| Client.currentScript_src := None;
     Client.lastScript_src := None;
     Client.location_host := "example.org";
     Client.location_protocol := "https:" |}.
Definition script_URL (src : string) : option (string * string) :=
  if String.eqb src "http://localhost:34115/wails/ipc.js"
  then Some ("localhost:34115", "http:")
  else None.
Definition script_locator : Client.locator :=
  {| Client.host := Some "localhost:34115"; Client.protocol := Some "http:" |}.

(** The two IPC scripts, by name. *)
Definition ipc_scripts : AssetServerDev.RuntimeAssets :=
  {| AssetServerDev.DesktopIPC := "desktop";
     AssetServerDev.WebsocketIPC := "websocket" |}.

End Examples.

(** ** Properties of frame reassembly *)
Section ReassemblerFacts.
Import Reassembler Examples.

Lemma append_nil_l (t : string) : "" ++ t = t.
Proof. reflexivity. Qed.

Lemma append_cons (a : ascii) (s t : string) :
  String a s ++ t = String a (s ++ t).
Proof. reflexivity. Qed.

Lemma append_empty_r (s : string) : s ++ "" = s.
Proof.
  induction s as [|a s IH]; [done|]. by rewrite append_cons, IH.
Qed.

Lemma append_assoc (a b c : string) : (a ++ b) ++ c = a ++ (b ++ c).
Proof.
  induction a as [|x a IH]; [done|]. by rewrite !append_cons, IH.
Qed.

Lemma len_append (a b : string) : len (a ++ b) = len a + len b.
Proof.
  induction a as [|x a IH]; [done|].
  rewrite append_cons. unfold len in *. cbn [String.length]. by rewrite IH.
Qed.

Lemma join_app (xs ys : list string) :
  join (xs ++ ys)%list = join xs ++ join ys.
Proof.
  induction xs as [|x xs IH]; cbn [app join fold_right]; [done|].
  fold (join (xs ++ ys)%list). fold (join xs). by rewrite IH, append_assoc.
Qed.

Lemma join_singleton (s : string) : join [s] = s.
Proof. apply append_empty_r. Qed.

(** The inner loop leaves at once on a frame that closes the message. *)
Lemma collect_done (buffer msg : string) (conn : list string) :
  HasSuffix msg closer = true → collect buffer msg conn = Some (buffer, conn).
Proof. intros H. destruct conn; simpl; by rewrite H. Qed.

(** The inner loop on a frame that does not close the message takes
    the next frame, if there is one. *)
Lemma collect_more (buffer msg msg' : string) (conn : list string) :
  HasSuffix msg closer = false →
  collect buffer msg (msg' :: conn) = collect (buffer ++ msg') msg' conn.
Proof. intros H. simpl. by rewrite H. Qed.

Lemma collect_stall (buffer msg : string) :
  HasSuffix msg closer = false → collect buffer msg [] = None.
Proof. intros H. simpl. by rewrite H. Qed.

(** [collect] started on a last frame that does not close the message
    walks over every further frame that does not close it either and
    stops at the first one that does. *)
Lemma collect_run (mid : list string) :
  ∀ buffer msg last rest,
    HasSuffix msg closer = false →
    Forall (λ f, HasSuffix f closer = false) mid →
    HasSuffix last closer = true →
    collect buffer msg (mid ++ last :: rest)%list
    = Some (buffer ++ join (mid ++ [last])%list, rest).
Proof.
  induction mid as [|f mid IH]; intros buffer msg last rest Hmsg Hmid Hlast.
  - cbn [app]. rewrite collect_more by done.
    rewrite collect_done by done. by rewrite join_singleton.
  - apply Forall_cons in Hmid as [Hf Hmid].
    cbn [app]. rewrite collect_more by done.
    rewrite (IH (buffer ++ f) f last rest Hf Hmid Hlast).
    cbn [join fold_right]. by rewrite append_assoc.
Qed.

(** A frame that does not begin with the marker is a message. *)
Lemma receiveFull_plain (m : string) (rest : list string) :
  HasPrefix m marker = false → receiveFull (m :: rest) = Some (m, rest).
Proof. intros H. unfold receiveFull. cbn [Receive]. by rewrite H. Qed.

(** A frame that begins with the marker starts the inner loop. *)
Lemma receiveFull_marked (m : string) (rest : list string) :
  HasPrefix m marker = true → receiveFull (m :: rest) = collect m m rest.
Proof. intros H. unfold receiveFull. cbn [Receive]. by rewrite H. Qed.

(** C1, as stated, fails: the example message cut after its first byte
    is a sequence of frames whose concatenation begins with the marker
    and ends with the closing bytes, and yet the first frame alone is
    handed on as a complete message, because the marker is looked for
    in the first frame only. *)
Lemma reassembly_cut_in_marker :
  join cut_in_marker = example_message
  ∧ HasPrefix example_message marker = true
  ∧ HasSuffix example_message closer = true
  ∧ receiveFull cut_in_marker
    = Some ("C", ["{" ++ q ++ "a" ++ q ++ ":" ++ q ++ "b" ++ closer])
  ∧ receiveFull cut_in_marker ≠ Some (example_message, []).
Proof. repeat split; try reflexivity. vm_compute. discriminate. Qed.

(** The closing bytes are looked for in the frame received last, not in
    the buffer: cut between them, the example message is never
    complete, and the handler ends when the frames run out. *)
Lemma reassembly_cut_in_closer :
  join cut_in_closer = example_message
  ∧ receiveFull cut_in_closer = None.
Proof. split; reflexivity. Qed.

(** C1, amended.  A frame that does not begin with the marker is handed
    on unchanged as one message.  Frames of which the first begins with
    the marker, none but the last ends with the closing bytes, and the
    last does, are handed on as one message, their concatenation,
    whatever their number; the frames after them are left for the next
    message. *)
Theorem reassembly_on_frame_boundaries :
  (∀ (m : string) (rest : list string),
      HasPrefix m marker = false →
      receiveFull (m :: rest) = Some (m, rest))
  ∧ (∀ (pre : list string) (last : string) (rest : list string),
      HasPrefix (hd last pre) marker = true →
      Forall (λ f, HasSuffix f closer = false) pre →
      HasSuffix last closer = true →
      receiveFull (pre ++ last :: rest)%list
      = Some (join (pre ++ [last])%list, rest)).
Proof.
  split; [apply receiveFull_plain|].
  intros pre last rest Hhd Hpre Hlast.
  destruct pre as [|first mid]; cbn [hd app] in *.
  - rewrite receiveFull_marked by done.
    rewrite collect_done by done. by rewrite join_singleton.
  - apply Forall_cons in Hpre as [Hfirst Hmid].
    rewrite receiveFull_marked by done.
    by rewrite (collect_run mid first first last rest).
Qed.

Lemma reassembly_on_frame_boundaries_witness :
  receiveFull ["drag"; "EBping"] = Some ("drag", ["EBping"])
  ∧ receiveFull (cut_in_value ++ ["EBping"])%list
    = Some (example_message, ["EBping"]).
Proof.
  split.
  - apply (proj1 reassembly_on_frame_boundaries). reflexivity.
  - apply (proj2 reassembly_on_frame_boundaries
             [marker ++ "a"; q ++ ":"] (q ++ "b" ++ closer) ["EBping"]).
    + reflexivity.
    + repeat constructor.
    + reflexivity.
Defined.

End ReassemblerFacts.

(** ** Slicing a message into its two-byte tag and its payload *)
Section SliceFacts.

Lemma substring_whole (s : string) : substring 0 (String.length s) s = s.
Proof. induction s as [|a s IH]; cbn; [done|]. by rewrite IH. Qed.

Lemma substring_none (s : string) : substring 0 0 s = "".
Proof. by destruct s. Qed.

Lemma slice_to_tagged (a b : ascii) (r : string) :
  slice_to 2 (String a (String b r)) = String a (String b "").
Proof. unfold slice_to. cbn [substring]. by rewrite substring_none. Qed.

Lemma slice_from_tagged (a b : ascii) (r : string) :
  slice_from 2 (String a (String b r)) = r.
Proof.
  unfold slice_from, len. cbn [String.length Nat.sub substring].
  rewrite Nat.sub_0_r. apply substring_whole.
Qed.

(** A message longer than two bytes is its tag followed by its payload. *)
Lemma tag_payload (m : string) :
  2 < len m → m = slice_to 2 m ++ slice_from 2 m.
Proof.
  destruct m as [|a [|b r]]; unfold len; cbn [String.length]; try lia.
  intros _. by rewrite slice_to_tagged, slice_from_tagged.
Qed.

Lemma len_tagged (tag payload : string) :
  len tag = 2 → (2 < len (tag ++ payload) ↔ payload ≠ "").
Proof.
  intros Htag. rewrite len_append, Htag.
  destruct payload as [|a r]; unfold len; cbn [String.length]; split;
    intros; try done; lia.
Qed.

End SliceFacts.

(** ** Properties of the relay *)
Section RelayFacts.
Import DevServer.
Context `{Ext : Externals}.

Implicit Types (d : DevWebServer) (c : N) (m : string).

(** *** The branches of the loop body *)

Lemma loopBody_branch d c m :
  loopBody d c m =
  match branch_of m with
  | Drag => (d, [], Continue)
  | EventEmit =>
      let '(d', effects, nxt) := dispatch d c m in
      (d', (notifyExcludingSender d m c ++ effects)%list, nxt)
  | EventBind =>
      (with_clients d
         (alter (Store (slice_from 2 m) true) c (websocketClients d)),
       [], Continue)
  | EventOff =>
      dispatch
        (with_clients d
           (alter (Delete (slice_from 2 m)) c (websocketClients d)))
        c m
  | Other => dispatch d c m
  end.
Proof.
  unfold loopBody, branch_of.
  destruct (Nat.eqb (len m) 4 && String.eqb m "drag"); [done|].
  destruct (Nat.ltb 2 (len m)); [|done].
  destruct (String.eqb (slice_to 2 m) "EE"); [done|].
  destruct (String.eqb (slice_to 2 m) "EB"); [done|].
  by destruct (String.eqb (slice_to 2 m) "EX").
Qed.

Lemma branch_of_drag m : branch_of m = Drag ↔ m = "drag".
Proof.
  unfold branch_of. split.
  - destruct (Nat.eqb (len m) 4 && String.eqb m "drag") eqn:E.
    + intros _. apply andb_true_iff in E as [_ E]. by apply String.eqb_eq.
    + repeat case_match; discriminate.
  - by intros ->.
Qed.

(** A message longer than two bytes takes the branch of its tag. *)
Lemma branch_of_tagged (a b : ascii) (r : string) :
  r ≠ "" →
  branch_of (String a (String b r)) =
  if String.eqb (String a (String b r)) "drag" then Drag
  else if String.eqb (String a (String b "")) "EE" then EventEmit
  else if String.eqb (String a (String b "")) "EB" then EventBind
  else if String.eqb (String a (String b "")) "EX" then EventOff
  else Other.
Proof.
  intros Hr. unfold branch_of. rewrite slice_to_tagged.
  assert (Nat.ltb 2 (len (String a (String b r))) = true) as ->.
  { apply Nat.ltb_lt. destruct r; [done|]. unfold len. cbn. lia. }
  destruct (String.eqb_spec (String a (String b r)) "drag") as [->|Hne].
  - reflexivity.
  - by rewrite andb_false_r.
Qed.

Lemma branch_of_EE (payload : string) :
  payload ≠ "" → branch_of ("EE" ++ payload) = EventEmit.
Proof. intros H. change ("EE" ++ payload) with (String "E" (String "E" payload)). by rewrite branch_of_tagged. Qed.

Lemma branch_of_EB (payload : string) :
  payload ≠ "" → branch_of ("EB" ++ payload) = EventBind.
Proof. intros H. change ("EB" ++ payload) with (String "E" (String "B" payload)). by rewrite branch_of_tagged. Qed.

Lemma branch_of_EX (payload : string) :
  payload ≠ "" → branch_of ("EX" ++ payload) = EventOff.
Proof. intros H. change ("EX" ++ payload) with (String "E" (String "X" payload)). by rewrite branch_of_tagged. Qed.

(** The three event branches are taken by tagged messages only. *)
Lemma branch_of_tag_inv m :
  match branch_of m with
  | EventEmit => m = "EE" ++ slice_from 2 m ∧ slice_from 2 m ≠ ""
  | EventBind => m = "EB" ++ slice_from 2 m ∧ slice_from 2 m ≠ ""
  | EventOff => m = "EX" ++ slice_from 2 m ∧ slice_from 2 m ≠ ""
  | _ => True
  end.
Proof.
  unfold branch_of.
  destruct (Nat.eqb (len m) 4 && String.eqb m "drag"); [done|].
  destruct (Nat.ltb 2 (len m)) eqn:Hlen; [|done].
  apply Nat.ltb_lt in Hlen.
  assert (slice_from 2 m ≠ "") as Hpay.
  { destruct m as [|a [|b [|x r]]]; unfold len in Hlen; cbn in Hlen; try lia.
    by rewrite slice_from_tagged. }
  pose proof (tag_payload m Hlen) as Hm.
  destruct (String.eqb_spec (slice_to 2 m) "EE") as [E|_];
    [rewrite E in Hm; done|].
  destruct (String.eqb_spec (slice_to 2 m) "EB") as [E|_];
    [rewrite E in Hm; done|].
  destruct (String.eqb_spec (slice_to 2 m) "EX") as [E|_];
    [rewrite E in Hm; done|].
  done.
Qed.


Lemma branch_of_EB_iff m :
  branch_of m = EventBind ↔ 2 < len m ∧ slice_to 2 m = "EB".
Proof.
  unfold branch_of. split.
  - destruct (Nat.eqb (len m) 4 && String.eqb m "drag"); [done|].
    destruct (Nat.ltb_spec 2 (len m)); [|done].
    destruct (String.eqb_spec (slice_to 2 m) "EE"); [done|].
    destruct (String.eqb_spec (slice_to 2 m) "EB"); [done|].
    by destruct (String.eqb (slice_to 2 m) "EX").
  - intros [Hlen Htag].
    destruct (String.eqb_spec m "drag") as [->|_]; [done|].
    rewrite andb_false_r.
    destruct (Nat.ltb_spec 2 (len m)); [|lia].
    by rewrite Htag.
Qed.

Lemma branch_of_EE_iff m :
  branch_of m = EventEmit ↔ 2 < len m ∧ slice_to 2 m = "EE".
Proof.
  unfold branch_of. split.
  - destruct (Nat.eqb (len m) 4 && String.eqb m "drag"); [done|].
    destruct (Nat.ltb_spec 2 (len m)); [|done].
    destruct (String.eqb_spec (slice_to 2 m) "EE"); [done|].
    destruct (String.eqb (slice_to 2 m) "EB"); [done|].
    by destruct (String.eqb (slice_to 2 m) "EX").
  - intros [Hlen Htag].
    destruct (String.eqb_spec m "drag") as [->|_]; [done|].
    rewrite andb_false_r.
    destruct (Nat.ltb_spec 2 (len m)); [|lia].
    by rewrite Htag.
Qed.

(** *** Who is written to by a broadcast *)

Lemma elem_of_send_logged c m c' m' :
  Message_Send c m ∈ send_logged c' m' ↔ c = c' ∧ m = m'.
Proof.
  unfold send_logged. destruct (Send_error c' m');
    rewrite ?elem_of_cons, ?elem_of_nil; split;
    try (intros [-> ->]; by left); intros H;
    repeat (destruct H as [H|H]); by simplify_eq.
Qed.

Lemma elem_of_broadcast d message name c m :
  Message_Send c m ∈ broadcast d message name ↔
  m = message ∧ c ≠ nilConn ∧
  ∃ info, websocketClients d !! c = Some info
          ∧ (name = "" ∨ is_Some (Load name info)).
Proof.
  unfold broadcast. rewrite list_elem_of_bind. split.
  - intros [[c' info] [Hin Hentry]].
    apply elem_of_map_to_list in Hentry. cbn [broadcast_one] in Hin.
    destruct (N.eqb_spec c' nilConn) as [->|Hnil].
    { apply list_elem_of_singleton in Hin. discriminate. }
    destruct (String.eqb_spec name "") as [->|Hname]; cbn [negb] in Hin.
    + apply elem_of_send_logged in Hin as [-> ->]. eauto 6.
    + destruct (Load name info) as [v|] eqn:Hload.
      * apply elem_of_send_logged in Hin as [-> ->].
        split; [done|]. split; [done|]. exists info. rewrite Hload. eauto.
      * by apply elem_of_nil in Hin.
  - intros (-> & Hnil & info & Hentry & Hsub).
    exists (c, info). split; [|by apply elem_of_map_to_list].
    cbn [broadcast_one].
    destruct (N.eqb_spec c nilConn) as [?|_]; [done|].
    destruct (String.eqb_spec name "") as [->|Hname]; cbn [negb].
    + by apply elem_of_send_logged.
    + destruct Hsub as [?|[v Hv]]; [done|]. rewrite Hv.
      by apply elem_of_send_logged.
Qed.

Lemma elem_of_broadcastExcludingSender d message sender c m :
  Message_Send c m ∈ broadcastExcludingSender d message sender ↔
  m = message ∧ c ≠ sender ∧ is_Some (websocketClients d !! c).
Proof.
  unfold broadcastExcludingSender. rewrite list_elem_of_bind. split.
  - intros [[c' info] [Hin Hentry]].
    apply elem_of_map_to_list in Hentry.
    cbn [broadcastExcludingSender_one] in Hin.
    destruct (N.eqb_spec c' sender) as [->|Hne].
    { by apply elem_of_nil in Hin. }
    apply elem_of_send_logged in Hin as [-> ->]. eauto.
  - intros (-> & Hne & [info Hentry]).
    exists (c, info). split; [|by apply elem_of_map_to_list].
    cbn [broadcastExcludingSender_one].
    destruct (N.eqb_spec c sender) as [?|_]; [done|].
    by apply elem_of_send_logged.
Qed.

Lemma send_logged_writes_or_logs c m :
  Forall writes_or_logs (send_logged c m).
Proof.
  unfold send_logged.
  destruct (Send_error c m); repeat (constructor; [exact I|]); constructor.
Qed.

Lemma broadcast_writes_or_logs d message name :
  Forall writes_or_logs (broadcast d message name).
Proof.
  unfold broadcast. apply Forall_bind, Forall_forall.
  intros [c info] _. unfold compose, broadcast_one.
  destruct (N.eqb_spec c nilConn); [constructor; [exact I|constructor]|].
  destruct (String.eqb_spec name ""); cbn [negb];
    [apply send_logged_writes_or_logs|].
  destruct (Load name info); [apply send_logged_writes_or_logs|constructor].
Qed.

Lemma broadcastExcludingSender_writes_or_logs d message sender :
  Forall writes_or_logs (broadcastExcludingSender d message sender).
Proof.
  unfold broadcastExcludingSender. apply Forall_bind, Forall_forall.
  intros [c info] _. unfold compose, broadcastExcludingSender_one.
  case_match; [constructor | apply send_logged_writes_or_logs].
Qed.


(** *** What a pass through the loop body leaves of the registry *)

Lemma dispatch_clients d c m :
  websocketClients (dispatch d c m).1.1 = websocketClients d.
Proof.
  unfold dispatch.
  destruct (ProcessMessage (dispatcher d) m) as [[calls [result err]] s'].
  by destruct (negb (String.eqb result "")).
Qed.

Lemma loopBody_clients d c m :
  websocketClients (loopBody d c m).1.1 =
  match branch_of m with
  | EventBind => alter (Store (slice_from 2 m) true) c (websocketClients d)
  | EventOff => alter (Delete (slice_from 2 m)) c (websocketClients d)
  | _ => websocketClients d
  end.
Proof.
  rewrite loopBody_branch. destruct (branch_of m); try done.
  - pose proof (dispatch_clients d c m) as H.
    by destruct (dispatch d c m) as [[d' effects] nxt].
  - by rewrite dispatch_clients.
  - by rewrite dispatch_clients.
Qed.

(** *** C2: the broadcast that leaves out the sender *)

(** C2, amended.  [broadcastExcludingSender] writes the message to every
    registered connection but the sender, whatever those connections
    have subscribed to, and never to the sender.  A message of the
    event branch from connection [a] is first passed to
    [notifyExcludingSender]: its payload behind the byte [n] is written
    to every registered connection but [a] and never to [a], and, when
    the payload decodes as an [EventNotify], the host frontend is told
    by exactly one call of [Notify]. *)
Theorem event_rebroadcast_excludes_sender :
  (∀ d (message : string) (s c : N),
      (Message_Send s message ∉ broadcastExcludingSender d message s)
      ∧ (c ≠ s → is_Some (websocketClients d !! c) →
         Message_Send c message ∈ broadcastExcludingSender d message s))
  ∧ (∀ d (a : N) (msg : string),
      2 < len msg → slice_to 2 msg = "EE" →
      (∃ rest, (loopBody d a msg).1.2
               = (notifyExcludingSender d msg a ++ rest)%list)
      ∧ (∀ c, c ≠ a → is_Some (websocketClients d !! c) →
           Message_Send c ("n" ++ slice_from 2 msg)
           ∈ notifyExcludingSender d msg a)
      ∧ (∀ m, Message_Send a m ∉ notifyExcludingSender d msg a)
      ∧ (∀ ev, json_Unmarshal (slice_from 2 msg) = Ok ev →
           notifyExcludingSender d msg a
           = (broadcastExcludingSender d ("n" ++ slice_from 2 msg) a
              ++ [Frontend_Notify (Name ev) (Data ev)])%list
           ∧ Forall writes_or_logs
               (broadcastExcludingSender d ("n" ++ slice_from 2 msg) a))).
Proof.
  split.
  - intros d message s c. split.
    + rewrite elem_of_broadcastExcludingSender. by intros (_ & ? & _).
    + intros Hne Hreg. by apply elem_of_broadcastExcludingSender.
  - intros d a msg Hlen Htag.
    assert (branch_of msg = EventEmit) as Hbranch
      by by apply branch_of_EE_iff.
    split; [|split; [|split]].
    + rewrite loopBody_branch, Hbranch.
      destruct (dispatch d a msg) as [[d' effects] nxt]. by exists effects.
    + intros c Hne Hreg. unfold notifyExcludingSender.
      apply elem_of_app. left. by apply elem_of_broadcastExcludingSender.
    + intros m. unfold notifyExcludingSender.
      rewrite elem_of_app, elem_of_broadcastExcludingSender.
      intros [(_ & ? & _)|Hhost]; [done|].
      destruct (json_Unmarshal (slice_from 2 msg));
        apply list_elem_of_singleton in Hhost; discriminate.
    + intros ev Hev. unfold notifyExcludingSender. rewrite Hev.
      split; [done|]. apply broadcastExcludingSender_writes_or_logs.
Qed.

(** *** C3: the subscription filter of [broadcast] *)

Lemma holds_unregister d c c' name :
  holds d c name → holds (unregister d c') c name.
Proof.
  intros H info. unfold unregister. cbn [websocketClients with_clients].
  destruct (decide (c' = c)) as [->|Hne].
  - by rewrite lookup_delete_eq.
  - rewrite lookup_delete_ne by done. apply H.
Qed.

(** Every pass but the unsubscription of [name] by [c] itself keeps
    what [c] holds. *)
Lemma holds_loopBody d c c' m name :
  (c', m) ≠ (c, "EX" ++ name) →
  holds d c name → holds (loopBody d c' m).1.1 c name.
Proof.
  intros Hne H info. rewrite loopBody_clients.
  pose proof (branch_of_tag_inv m) as Htag.
  destruct (branch_of m); try apply H.
  - destruct (decide (c' = c)) as [->|Hc].
    + rewrite lookup_alter_eq.
      destruct (websocketClients d !! c) as [info0|] eqn:E; [|done].
      intros [= <-]. unfold Load, Store. cbn [eventCache].
      destruct (decide (slice_from 2 m = name)) as [->|Hk].
      * rewrite lookup_insert_eq. eauto.
      * rewrite lookup_insert_ne by done. by apply H.
    + rewrite lookup_alter_ne by done. apply H.
  - destruct (decide (c' = c)) as [->|Hc].
    + rewrite lookup_alter_eq.
      destruct (websocketClients d !! c) as [info0|] eqn:E; [|done].
      intros [= <-]. unfold Load, Delete. cbn [eventCache].
      destruct Htag as [Hm _].
      assert (slice_from 2 m ≠ name) as Hk.
      { intros Hk. apply Hne. rewrite Hm at 1. by rewrite Hk. }
      rewrite lookup_delete_ne by done. by apply H.
    + rewrite lookup_alter_ne by done. apply H.
Qed.

Lemma holds_serve (arrivals : list (N * string)) :
  ∀ d c name,
    (c, "EX" ++ name) ∉ arrivals →
    holds d c name → holds (serve d arrivals).1 c name.
Proof.
  induction arrivals as [|[c' m] arrivals IH]; intros d c name Hnot H.
  - done.
  - apply not_elem_of_cons in Hnot as [Hne Hnot]. cbn [serve].
    pose proof (holds_loopBody d c c' m name (not_eq_sym Hne) H) as H1.
    destruct (loopBody d c' m) as [[d' effects] nxt]. cbn [fst] in H1.
    pose proof (IH (match nxt with
                    | Continue => d'
                    | Break => unregister d' c'
                    end) c name Hnot) as H2.
    destruct (serve _ arrivals) as [d2 effects'].
    apply H2. destruct nxt; [done|]. by apply holds_unregister.
Qed.

Lemma holds_subscribe d c name :
  name ≠ "" → holds (loopBody d c ("EB" ++ name)).1.1 c name.
Proof.
  intros Hname info. rewrite loopBody_clients, branch_of_EB by done.
  rewrite lookup_alter_eq.
  destruct (websocketClients d !! c) as [info0|]; [|done].
  intros [= <-]. unfold Load, Store. cbn [eventCache].
  change ("EB" ++ name) with (String "E" (String "B" name)).
  rewrite slice_from_tagged, lookup_insert_eq. eauto.
Qed.


(** C3.  A connection that sent the subscription to [name], and since
    then no unsubscription from it, is written to by every
    [broadcast] that requires [name], as long as it is registered; a
    connection whose subscription state does not contain [name] is
    skipped; and a [broadcast] that requires no name writes to every
    registered connection. *)
Theorem broadcast_subscription_filter :
  (∀ d (c : N) (name : string) (arrivals : list (N * string))
     (message : string),
      name ≠ "" → c ≠ nilConn →
      (c, "EX" ++ name) ∉ arrivals →
      is_Some (websocketClients
                 (serve d ((c, "EB" ++ name) :: arrivals)).1 !! c) →
      Message_Send c message
      ∈ broadcast (serve d ((c, "EB" ++ name) :: arrivals)).1 message name)
  ∧ (∀ d (c : N) (name message : string),
      name ≠ "" →
      (∀ info, websocketClients d !! c = Some info →
               Load name info = None) →
      Message_Send c message ∉ broadcast d message name)
  ∧ (∀ d (c : N) (message : string),
      c ≠ nilConn → is_Some (websocketClients d !! c) →
      Message_Send c message ∈ broadcast d message "").
Proof.
  split; [|split].
  - intros d c name arrivals message Hname Hnil Hnot [info Hinfo].
    assert (holds (serve d ((c, "EB" ++ name) :: arrivals)).1 c name) as H.
    { cbn [serve].
      pose proof (holds_subscribe d c name Hname) as H0.
      destruct (loopBody d c ("EB" ++ name)) as [[d' effects] nxt].
      cbn [fst] in H0.
      pose proof (holds_serve arrivals
                    (match nxt with
                     | Continue => d'
                     | Break => unregister d' c
                     end) c name Hnot) as H1.
      destruct (serve _ arrivals) as [d2 effects'].
      apply H1. destruct nxt; [done|]. by apply holds_unregister. }
    apply elem_of_broadcast. split; [done|]. split; [done|].
    exists info. split; [done|]. right. by apply H.
  - intros d c name message Hname Hnone.
    rewrite elem_of_broadcast.
    intros (_ & _ & info & Hinfo & [?|[v Hv]]); [done|].
    rewrite (Hnone info Hinfo) in Hv. discriminate.
  - intros d c message Hnil [info Hinfo].
    apply elem_of_broadcast. eauto 6.
Qed.

(** *** C9: unsubscription *)

Lemma Delete_idemp (key : string) (info : WebsocketInfo) :
  Delete key (Delete key info) = Delete key info.
Proof. unfold Delete. cbn [eventCache]. by rewrite delete_delete_eq. Qed.

Lemma alter_Delete_idemp (key : string) c (clients : gmap N WebsocketInfo) :
  alter (Delete key) c (alter (Delete key) c clients)
  = alter (Delete key) c clients.
Proof.
  apply map_eq. intros c'. destruct (decide (c = c')) as [<-|Hne].
  - rewrite !lookup_alter_eq. destruct (clients !! c); [|done].
    cbn. by rewrite Delete_idemp.
  - by rewrite !lookup_alter_ne.
Qed.

Lemma unsubscribe_clients d c name :
  name ≠ "" →
  websocketClients (loopBody d c ("EX" ++ name)).1.1
  = alter (Delete name) c (websocketClients d).
Proof.
  intros Hname. rewrite loopBody_clients, branch_of_EX by done.
  change ("EX" ++ name) with (String "E" (String "X" name)).
  by rewrite slice_from_tagged.
Qed.

(** C9.  After the subscription to [name], the unsubscription from it
    leaves connection [c] out of every [broadcast] that requires
    [name], and sent [n] more times it leaves the registry, with every
    subscription state in it, as the first one left it. *)
Theorem unsubscribe_idempotent d c (name message : string) (n : nat) :
  name ≠ "" →
  let unsubscribe := λ d, (loopBody d c ("EX" ++ name)).1.1 in
  let subscribed := (loopBody d c ("EB" ++ name)).1.1 in
  (Message_Send c message
   ∉ broadcast (unsubscribe subscribed) message name)
  ∧ websocketClients (Nat.iter (S n) unsubscribe subscribed)
    = websocketClients (unsubscribe subscribed).
Proof.
  intros Hname unsubscribe subscribed. split.
  - rewrite elem_of_broadcast.
    intros (_ & _ & info & Hinfo & [?|[v Hv]]); [done|].
    unfold unsubscribe in Hinfo.
    rewrite unsubscribe_clients, lookup_alter_eq in Hinfo by done.
    destruct (websocketClients subscribed !! c) as [info0|]; [|done].
    injection Hinfo as <-. unfold Load, Delete in Hv. cbn [eventCache] in Hv.
    by rewrite lookup_delete_eq in Hv.
  - induction n as [|n IH]; [done|].
    change (Nat.iter (S (S n)) unsubscribe subscribed)
      with (unsubscribe (Nat.iter (S n) unsubscribe subscribed)).
    unfold unsubscribe at 1. rewrite unsubscribe_clients by done.
    rewrite IH. unfold unsubscribe. rewrite unsubscribe_clients by done.
    apply alter_Delete_idemp.
Qed.

(** *** C4 and C6: what is handed to the dispatcher, and the reply *)

Lemma writes_or_logs_not_dispatch (l : list effect) m :
  Forall writes_or_logs l → dispatcher_ProcessMessage m ∉ l.
Proof.
  intros Hall Hin. rewrite Forall_forall in Hall. by apply Hall in Hin.
Qed.

Lemma run_call_not_dispatch d call m :
  dispatcher_ProcessMessage m ∉ run_call d call.
Proof.
  destruct call as [| |name data]; cbn [run_call].
  - unfold WindowReload. rewrite elem_of_app, list_elem_of_singleton.
    intros [H|H]; [|discriminate].
    by apply (writes_or_logs_not_dispatch _ _
                (broadcast_writes_or_logs d "reload" "")) in H.
  - unfold WindowReloadApp. rewrite elem_of_app, list_elem_of_singleton.
    intros [H|H]; [|discriminate].
    by apply (writes_or_logs_not_dispatch _ _
                (broadcast_writes_or_logs d "reloadapp" "")) in H.
  - unfold Notify, notify.
    destruct (json_Marshal _) as [payload|e].
    + apply writes_or_logs_not_dispatch, broadcast_writes_or_logs.
    + rewrite list_elem_of_singleton. discriminate.
Qed.

Lemma notifyExcludingSender_not_dispatch d msg a m :
  dispatcher_ProcessMessage m ∉ notifyExcludingSender d msg a.
Proof.
  unfold notifyExcludingSender. rewrite elem_of_app. intros [H|H].
  - by apply (writes_or_logs_not_dispatch _ _
                (broadcastExcludingSender_writes_or_logs d _ a)) in H.
  - destruct (json_Unmarshal _);
      apply list_elem_of_singleton in H; discriminate.
Qed.

(** The effects of the tail of the loop body, spelled out. *)
Lemma dispatch_effects d c m calls result err s' :
  ProcessMessage (dispatcher d) m = (calls, (result, err), s') →
  (dispatch d c m).1.2 =
  (dispatcher_ProcessMessage m
   :: (calls ≫= run_call (with_dispatcher d s'))
   ++ match err with
      | Some e => [logger_Error e]
      | None => []
      end
   ++ if String.eqb result "" then [] else [Message_Send c result])%list.
Proof.
  intros H. unfold dispatch. rewrite H.
  destruct (String.eqb result ""); cbn [negb fst snd].
  - by rewrite app_nil_r.
  - done.
Qed.

Lemma dispatch_dispatches d c m m' :
  dispatcher_ProcessMessage m' ∈ (dispatch d c m).1.2 ↔ m' = m.
Proof.
  destruct (ProcessMessage (dispatcher d) m) as [[calls [result err]] s']
    eqn:E.
  rewrite (dispatch_effects d c m calls result err s' E).
  rewrite elem_of_cons. split; [|by left; f_equal].
  intros [[= ->]|H]; [done|]. exfalso.
  rewrite !elem_of_app in H. destruct H as [H|[H|H]].
  - apply list_elem_of_bind in H as (call & H & _).
    by apply run_call_not_dispatch in H.
  - destruct err; [apply list_elem_of_singleton in H; discriminate|].
    by apply elem_of_nil in H.
  - destruct (String.eqb result "");
      [by apply elem_of_nil in H|].
    apply list_elem_of_singleton in H. discriminate.
Qed.

Lemma loopBody_dispatches d c m m' :
  dispatcher_ProcessMessage m' ∈ (loopBody d c m).1.2 ↔
  m' = m ∧ branch_of m ≠ Drag ∧ branch_of m ≠ EventBind.
Proof.
  rewrite loopBody_branch. destruct (branch_of m) eqn:Hbranch.
  - cbn [fst snd]. rewrite elem_of_nil. by intros; split; [|intros (_&?&_)].
  - pose proof (dispatch_dispatches d c m m') as H.
    destruct (dispatch d c m) as [[d' effects] nxt]. cbn [fst snd] in *.
    rewrite elem_of_app, H. split.
    + intros [Hn| ->]; [|done].
      by apply notifyExcludingSender_not_dispatch in Hn.
    + intros (-> & _). by right.
  - cbn [fst snd]. rewrite elem_of_nil. by intros; split; [|intros (_&_&?)].
  - rewrite dispatch_dispatches. by split; [|intros (-> & _)].
  - rewrite dispatch_dispatches. by split; [|intros (-> & _)].
Qed.

(** C4, amended.  A complete message takes exactly one branch of the
    loop body.  It is handed to the dispatcher, as it is, unless it is
    [drag] or a subscription (longer than two bytes, beginning with
    [EB]): event messages ([EE]) and unsubscriptions ([EX]) are handed
    to the dispatcher as well, after their own handling.  [drag] does
    nothing at all, and a subscription has no effect outside the
    registry. *)
Theorem dispatch_unless_drag_or_subscribe d c m :
  (dispatcher_ProcessMessage m ∈ (loopBody d c m).1.2 ↔
   m ≠ "drag" ∧ ¬ (2 < len m ∧ slice_to 2 m = "EB"))
  ∧ (∀ m', dispatcher_ProcessMessage m' ∈ (loopBody d c m).1.2 → m' = m)
  ∧ (m = "drag" → loopBody d c m = (d, [], Continue))
  ∧ (2 < len m → slice_to 2 m = "EB" →
     (loopBody d c m).1.2 = [] ∧ (loopBody d c m).2 = Continue).
Proof.
  split; [|split; [|split]].
  - rewrite loopBody_dispatches, branch_of_drag, branch_of_EB_iff.
    by split; [intros (_ & ? & ?)|intros [? ?]].
  - intros m'. rewrite loopBody_dispatches. by intros (-> & _).
  - by intros ->.
  - intros Hlen Htag. rewrite loopBody_branch.
    by rewrite (proj2 (branch_of_EB_iff m)).
Qed.

(** C5, amended.  The reload is an action of the host:
    [WindowReload], which the reload route calls and which the
    dispatcher may call on its sender, reloads the host window and
    writes [reload] to every registered connection, with no
    subscription required.  The bytes [reload] arriving on a
    connection are handed to the dispatcher like any other message. *)
Theorem reload_is_a_host_action d :
  Frontend_WindowReload ∈ WindowReload d
  ∧ (∀ c, c ≠ nilConn → is_Some (websocketClients d !! c) →
       Message_Send c "reload" ∈ WindowReload d)
  ∧ handleReload d = (WindowReload d, 204)
  ∧ run_call d CallWindowReload = WindowReload d
  ∧ (∀ c, loopBody d c "reload" = dispatch d c "reload").
Proof.
  split; [|split; [|split; [|split]]]; try done.
  - unfold WindowReload. apply elem_of_app. right. by left.
  - intros c Hnil [info Hinfo]. unfold WindowReload.
    apply elem_of_app. left. apply elem_of_broadcast. eauto 6.
Qed.

(** C6, amended.  For a message handed to the dispatcher, the loop
    body logs the error if the dispatcher returns one and, whether it
    returned an error or not, writes a result that is not empty to the
    connection the message came from; it writes nothing for an empty
    result.  Apart from that one reply, the only writes are those of
    the calls the dispatcher itself made on its sender. *)
Theorem dispatch_reply d c m calls result err s' :
  ProcessMessage (dispatcher d) m = (calls, (result, err), s') →
  (branch_of m = Other → loopBody d c m = dispatch d c m)
  ∧ (dispatch d c m).1.2 =
    (dispatcher_ProcessMessage m
     :: (calls ≫= run_call (with_dispatcher d s'))
     ++ match err with
        | Some e => [logger_Error e]
        | None => []
        end
     ++ if String.eqb result "" then [] else [Message_Send c result])%list
  ∧ (∀ e, err = Some e → logger_Error e ∈ (dispatch d c m).1.2)
  ∧ (result ≠ "" → Message_Send c result ∈ (dispatch d c m).1.2)
  ∧ (∀ c' r, Message_Send c' r ∈ (dispatch d c m).1.2 →
       (c' = c ∧ r = result ∧ result ≠ "")
       ∨ Message_Send c' r ∈ calls ≫= run_call (with_dispatcher d s')).
Proof.
  intros H. split; [|split; [|split; [|split]]].
  - intros Hbranch. by rewrite loopBody_branch, Hbranch.
  - by apply dispatch_effects.
  - intros e ->. rewrite (dispatch_effects _ _ _ _ _ _ _ H).
    apply elem_of_cons. right. rewrite !elem_of_app. right. left. by left.
  - intros Hresult. rewrite (dispatch_effects _ _ _ _ _ _ _ H).
    apply elem_of_cons. right. rewrite !elem_of_app. right. right.
    destruct (String.eqb_spec result ""); [done|]. by left.
  - intros c' r. rewrite (dispatch_effects _ _ _ _ _ _ _ H).
    rewrite elem_of_cons, !elem_of_app.
    intros [?|[?|[Hlog|Hreply]]]; [done|by right|..].
    + destruct err; [apply list_elem_of_singleton in Hlog; discriminate|].
      by apply elem_of_nil in Hlog.
    + destruct (String.eqb_spec result "");
        [by apply elem_of_nil in Hreply|].
      apply list_elem_of_singleton in Hreply. injection Hreply as -> ->.
      by left.
Qed.

(** C7.  An event message whose payload does not decode is still
    rebroadcast: its payload behind the byte [n] is written to every
    registered connection but the sender, the decoding error is logged
    and the host frontend is not told; the message then goes on to the
    dispatcher as every event message does, and the registry with its
    subscription states is as before. *)
Theorem malformed_event_still_rebroadcast d a msg e :
  2 < len msg → slice_to 2 msg = "EE" →
  json_Unmarshal (slice_from 2 msg) = Err e →
  notifyExcludingSender d msg a
  = (broadcastExcludingSender d ("n" ++ slice_from 2 msg) a
     ++ [logger_Error e])%list
  ∧ (∀ c, c ≠ a → is_Some (websocketClients d !! c) →
       Message_Send c ("n" ++ slice_from 2 msg)
       ∈ notifyExcludingSender d msg a)
  ∧ (∀ name data,
       Frontend_Notify name data ∉ notifyExcludingSender d msg a)
  ∧ (loopBody d a msg).1.2
    = (notifyExcludingSender d msg a ++ (dispatch d a msg).1.2)%list
  ∧ websocketClients (loopBody d a msg).1.1 = websocketClients d.
Proof.
  intros Hlen Htag Herr.
  assert (branch_of msg = EventEmit) as Hbranch
    by by apply branch_of_EE_iff.
  assert (notifyExcludingSender d msg a
          = (broadcastExcludingSender d ("n" ++ slice_from 2 msg) a
             ++ [logger_Error e])%list) as Heq.
  { unfold notifyExcludingSender. by rewrite Herr. }
  split; [done|]. split; [|split; [|split]].
  - intros c Hne Hreg. rewrite Heq. apply elem_of_app. left.
    by apply elem_of_broadcastExcludingSender.
  - intros name data. rewrite Heq, elem_of_app. intros [H|H].
    + pose proof (broadcastExcludingSender_writes_or_logs
                    d ("n" ++ slice_from 2 msg) a) as Hall.
      rewrite Forall_forall in Hall. by apply Hall in H.
    + apply list_elem_of_singleton in H. discriminate.
  - rewrite loopBody_branch, Hbranch.
    by destruct (dispatch d a msg) as [[d' effects] nxt].
  - by rewrite loopBody_clients, Hbranch.
Qed.

(** *** The handler returns *)

Lemma collect_shorter (conn : list string) :
  ∀ buffer msg m rest,
    Reassembler.collect buffer msg conn = Some (m, rest) →
    (List.length rest ≤ List.length conn)%nat.
Proof.
  induction conn as [|f conn IH]; intros buffer msg m rest; cbn.
  - destruct (HasSuffix msg Reassembler.closer); [|done].
    by intros [= _ <-].
  - destruct (HasSuffix msg Reassembler.closer).
    + intros [= _ <-]. cbn. lia.
    + intros H. apply IH in H. lia.
Qed.

Lemma receiveFull_shorter (conn : list string) m rest :
  Reassembler.receiveFull conn = Some (m, rest) →
  List.length rest < List.length conn.
Proof.
  unfold Reassembler.receiveFull. destruct conn as [|f conn]; [done|].
  cbn [Reassembler.Receive].
  destruct (HasPrefix f Reassembler.marker).
  - intros H. apply collect_shorter in H. cbn. lia.
  - intros [= _ <-]. cbn. lia.
Qed.

(** With more fuel than frames the read loop ends by itself. *)
Lemma readLoop_returns (fuel : nat) :
  ∀ d c (conn : list string),
    List.length conn < fuel → is_Some (readLoop fuel d c conn).
Proof.
  induction fuel as [|fuel IH]; intros d c conn Hfuel; [lia|].
  cbn [readLoop].
  destruct (Reassembler.receiveFull conn) as [[m rest]|] eqn:E; [|eauto].
  apply receiveFull_shorter in E.
  destruct (loopBody d c m) as [[d' effects] [|]]; [|eauto].
  destruct (IH d' c rest) as [[d2 effects'] ->]; [lia|eauto].
Qed.

Lemma handleIPCWebSocket_returns d c (conn : list string) :
  is_Some (handleIPCWebSocket d c conn).
Proof.
  unfold handleIPCWebSocket.
  destruct (readLoop_returns (S (List.length conn)) (register d c) c conn)
    as [[d' effects] ->]; [lia|eauto].
Qed.

End RelayFacts.

(** ** The relay on concrete inputs *)
Section RelayRuns.
Import DevServer Examples.

Local Ltac not_listed H :=
  repeat (apply elem_of_cons in H as [H|H]; [discriminate H|]);
  by apply elem_of_nil in H.

(** C2, as stated, fails: connection [A] sends an event message whose
    payload does not decode.  It is rebroadcast to [B] and [C], the
    error is logged, the message goes to the dispatcher, and the host
    frontend is told nothing. *)
Lemma event_without_host_call :
  2 < len "EEoops" ∧ slice_to 2 "EEoops" = "EE"
  ∧ (loopBody (Ext := quiet) quiet_server A "EEoops").1.2
    = [Message_Send B "noops"; Message_Send C "noops";
       logger_Error "invalid character";
       dispatcher_ProcessMessage "EEoops"]
  ∧ ∀ name data,
      Frontend_Notify name data
      ∉ (loopBody (Ext := quiet) quiet_server A "EEoops").1.2.
Proof.
  split; [vm_compute; lia|]. split; [reflexivity|].
  assert ((loopBody (Ext := quiet) quiet_server A "EEoops").1.2
          = [Message_Send B "noops"; Message_Send C "noops";
             logger_Error "invalid character";
             dispatcher_ProcessMessage "EEoops"]) as E
    by (vm_compute; reflexivity).
  split; [exact E|]. intros name data H. rewrite E in H. not_listed H.
Qed.

Lemma event_rebroadcast_excludes_sender_witness :
  Message_Send B ("n" ++ ping_payload)
  ∈ notifyExcludingSender (Ext := quiet) quiet_server
      ("EE" ++ ping_payload) A
  ∧ notifyExcludingSender (Ext := quiet) quiet_server
      ("EE" ++ ping_payload) A
    = (broadcastExcludingSender (Ext := quiet) quiet_server
         ("n" ++ ping_payload) A
       ++ [Frontend_Notify "ping" []])%list.
Proof.
  destruct (proj2 (@event_rebroadcast_excludes_sender quiet)
              quiet_server A ("EE" ++ ping_payload))
    as (_ & Hsend & _ & Hhost).
  - vm_compute. lia.
  - reflexivity.
  - split.
    + apply (Hsend B); [discriminate|]. vm_compute. eauto.
    + apply (Hhost ping). reflexivity.
Defined.

Lemma broadcast_subscription_filter_witness :
  Message_Send A "npayload"
  ∈ broadcast (Ext := quiet)
      (serve (Ext := quiet) quiet_server
         [(A, "EBtick"); (B, "hello"); (A, "EXping")]).1
      "npayload" "tick".
Proof.
  apply (proj1 (@broadcast_subscription_filter quiet)
           quiet_server A "tick" [(B, "hello"); (A, "EXping")] "npayload").
  - discriminate.
  - discriminate.
  - intros H. not_listed H.
  - vm_compute. eauto.
Defined.

(** C4, as stated, fails: the event message of the specification's
    scenario is handed to the dispatcher after its rebroadcast, and so
    is an unsubscription. *)
Lemma event_and_unsubscribe_are_dispatched :
  2 < len ("EE" ++ ping_payload) ∧ slice_to 2 ("EE" ++ ping_payload) = "EE"
  ∧ (loopBody (Ext := quiet) quiet_server A ("EE" ++ ping_payload)).1.2
    = [Message_Send B ("n" ++ ping_payload);
       Message_Send C ("n" ++ ping_payload);
       Frontend_Notify "ping" [];
       dispatcher_ProcessMessage ("EE" ++ ping_payload)]
  ∧ 2 < len "EXping" ∧ slice_to 2 "EXping" = "EX"
  ∧ (loopBody (Ext := quiet) quiet_server B "EXping").1.2
    = [dispatcher_ProcessMessage "EXping"].
Proof.
  repeat split; try (vm_compute; lia); vm_compute; reflexivity.
Qed.

Lemma dispatch_unless_drag_or_subscribe_witness :
  loopBody (Ext := quiet) quiet_server A "drag"
  = (quiet_server, [], Continue)
  ∧ (loopBody (Ext := quiet) quiet_server A "EBping").1.2 = []
  ∧ dispatcher_ProcessMessage "Lhello"
    ∈ (loopBody (Ext := quiet) quiet_server A "Lhello").1.2.
Proof.
  destruct (@dispatch_unless_drag_or_subscribe quiet quiet_server A "drag")
    as (_ & _ & Hdrag & _).
  destruct (@dispatch_unless_drag_or_subscribe quiet quiet_server A "EBping")
    as (_ & _ & _ & Hbind).
  destruct (@dispatch_unless_drag_or_subscribe quiet quiet_server A "Lhello")
    as (Hother & _).
  split; [by apply Hdrag|]. split.
  - apply Hbind; [vm_compute; lia|reflexivity].
  - apply Hother. split; [discriminate|].
    intros [_ Htag]. vm_compute in Htag. discriminate.
Defined.

(** C5, as stated, fails: the bytes [reload] arriving on a connection
    are handed to the dispatcher and, with a dispatcher that does
    nothing about them, the host window is not reloaded and nothing is
    written to any connection. *)
Lemma reload_bytes_do_not_reload :
  loopBody (Ext := quiet) quiet_server A "reload"
  = (quiet_server, [dispatcher_ProcessMessage "reload"], Continue)
  ∧ (Frontend_WindowReload
     ∉ (loopBody (Ext := quiet) quiet_server A "reload").1.2)
  ∧ ∀ c, Message_Send c "reload"
         ∉ (loopBody (Ext := quiet) quiet_server A "reload").1.2.
Proof.
  assert (loopBody (Ext := quiet) quiet_server A "reload"
          = (quiet_server, [dispatcher_ProcessMessage "reload"], Continue))
    as E by reflexivity.
  split; [exact E|]. rewrite E. cbn [fst snd].
  split; [|intros c]; intros H; not_listed H.
Qed.

Lemma reload_is_a_host_action_witness :
  Message_Send C "reload" ∈ WindowReload (Ext := quiet) quiet_server
  ∧ Frontend_WindowReload ∈ WindowReload (Ext := quiet) quiet_server.
Proof.
  destruct (@reload_is_a_host_action quiet quiet_server)
    as (Hhost & Hsend & _).
  split; [|exact Hhost].
  apply (Hsend C); [discriminate|]. vm_compute. eauto.
Defined.

(** C6, as stated, fails: a dispatcher that returns a result together
    with an error has the error logged and the result written back all
    the same. *)
Lemma reply_despite_error :
  ProcessMessage (Externals := noisy) tt "Lhello"
  = ([], ("cresult", Some "handler failed"), tt)
  ∧ (loopBody (Ext := noisy) noisy_server A "Lhello").1.2
    = [dispatcher_ProcessMessage "Lhello"; logger_Error "handler failed";
       Message_Send A "cresult"].
Proof. split; reflexivity. Qed.

Lemma dispatch_reply_witness :
  (dispatch (Ext := noisy) noisy_server A "Lhello").1.2
  = [dispatcher_ProcessMessage "Lhello"; logger_Error "handler failed";
     Message_Send A "cresult"].
Proof.
  destruct (@dispatch_reply noisy noisy_server A "Lhello"
              [] "cresult" (Some "handler failed") tt)
    as (_ & Heffects & _).
  - reflexivity.
  - exact Heffects.
Defined.

Lemma malformed_event_still_rebroadcast_witness :
  notifyExcludingSender (Ext := quiet) quiet_server "EEoops" A
  = (broadcastExcludingSender (Ext := quiet) quiet_server "noops" A
     ++ [logger_Error "invalid character"])%list
  ∧ websocketClients (loopBody (Ext := quiet) quiet_server A "EEoops").1.1
    = three_clients.
Proof.
  destruct (@malformed_event_still_rebroadcast quiet quiet_server A
              "EEoops" "invalid character")
    as (Heq & _ & _ & _ & Hsame).
  - vm_compute. lia.
  - reflexivity.
  - reflexivity.
  - split; [exact Heq|exact Hsame].
Defined.

Lemma unsubscribe_idempotent_witness :
  Message_Send B "npayload"
  ∉ broadcast (Ext := quiet)
      (loopBody (Ext := quiet)
         (loopBody (Ext := quiet) quiet_server B "EBtick").1.1
         B "EXtick").1.1
      "npayload" "tick".
Proof.
  destruct (@unsubscribe_idempotent quiet quiet_server B "tick"
              "npayload" 2) as [Hout _].
  - discriminate.
  - exact Hout.
Defined.

End RelayRuns.

(** ** Properties of the routes *)
Section RoutesFacts.
Import DevServer Routes Examples.

Variable url_Parse : string → outcome string.

Lemma Run_without_dev_server :
  Run None url_Parse "" = Ok no_dev_server.
Proof. reflexivity. Qed.

(** The router on the routes of [no_dev_server], test by test. *)
Lemma find_route_no_dev_server (backtracks : bool) (rq : request) :
  find_route backtracks (routes no_dev_server) rq =
  if String.eqb "GET" (method rq) && String.eqb "/wails/reload" (path rq)
  then h_handleReload
  else if String.eqb "GET" (method rq) && String.eqb "/wails/ipc" (path rq)
  then h_handleIPCWebSocket
  else if String.eqb "GET" (method rq)
          && String.eqb "/wails/assetdir" (path rq)
  then h_assetdir
  else if (String.eqb "/wails/reload" (path rq)
           || String.eqb "/wails/ipc" (path rq)
           || String.eqb "/wails/assetdir" (path rq))
          && negb backtracks
  then h_MethodNotAllowed
  else if registered_by_Any (method rq) then h_catchAll
  else h_MethodNotAllowed.
Proof.
  unfold find_route, no_dev_server.
  cbn [routes List.find existsb matches_static matches_path is_Any
       r_method r_path r_handler].
  destruct (String.eqb "GET" (method rq));
    destruct (String.eqb "/wails/reload" (path rq));
    destruct (String.eqb "/wails/ipc" (path rq));
    destruct (String.eqb "/wails/assetdir" (path rq));
    destruct backtracks; reflexivity.
Qed.

Lemma fixed_path_tests (p : string) :
  String.eqb "/wails/reload" p || String.eqb "/wails/ipc" p
  || String.eqb "/wails/assetdir" p = true ↔ fixed_path p.
Proof.
  unfold fixed_path.
  destruct (String.eqb_spec "/wails/reload" p) as [<-|H1]; cbn [orb];
    [by split; [left|]|].
  destruct (String.eqb_spec "/wails/ipc" p) as [<-|H2]; cbn [orb];
    [by split; [right; left|]|].
  destruct (String.eqb_spec "/wails/assetdir" p) as [<-|H3]; cbn [orb];
    [by split; [right; right|]|].
  split; [done|]. intros [?|[?|?]]; congruence.
Qed.

(** A request for a path that has no handler of its own reaches the
    catch-all route when echo's [Any] registers its method. *)
Lemma reaches_catch_all (backtracks : bool) (rq : request) :
  registered_by_Any (method rq) = true →
  ¬ fixed_path (path rq) →
  find_route backtracks (routes no_dev_server) rq = h_catchAll.
Proof.
  intros Hany Hfree. rewrite find_route_no_dev_server.
  apply (not_iff_compat (fixed_path_tests (path rq))) in Hfree.
  apply not_true_is_false in Hfree.
  apply orb_false_iff in Hfree as [Hfree H3].
  apply orb_false_iff in Hfree as [H1 H2].
  rewrite H1, H2, H3, Hany. by rewrite !andb_false_r.
Qed.

(** A [GET] reaches it for exactly those paths. *)
Lemma GET_reaches_catch_all (backtracks : bool) (rq : request) :
  method rq = "GET" →
  find_route backtracks (routes no_dev_server) rq = h_catchAll ↔
  ¬ fixed_path (path rq).
Proof.
  intros Hget. split.
  - rewrite find_route_no_dev_server, Hget. cbn [String.eqb Ascii.eqb].
    intros Hroute Hfixed. unfold fixed_path in Hfixed.
    destruct Hfixed as [Hp|[Hp|Hp]]; rewrite Hp in Hroute;
      vm_compute in Hroute; discriminate.
  - intros Hfree. apply reaches_catch_all; [|done]. by rewrite Hget.
Qed.

(** A request whose method echo's [Any] does not register never
    reaches it. *)
Lemma unregistered_method_is_refused (backtracks : bool) (rq : request) :
  registered_by_Any (method rq) = false →
  find_route backtracks (routes no_dev_server) rq = h_MethodNotAllowed.
Proof.
  intros Hany. rewrite find_route_no_dev_server, Hany.
  destruct (String.eqb_spec "GET" (method rq)) as [Hget|_].
  { rewrite <- Hget in Hany. discriminate. }
  cbn [andb]. by case_match.
Qed.

(** C10, amended.  With no frontend dev server configured, [wsHandler]
    stays nil.  Every websocket request that reaches the catch-all
    route has [ServeHTTP] called on the nil handler.  A [GET], which a
    websocket handshake is, reaches it exactly when its path is other
    than [/wails/reload], [/wails/ipc] and [/wails/assetdir]; so does a
    request of any other method that echo's [Any] registers for such a
    path; a request of a method that [Any] does not register never
    reaches it.  A request that is not a websocket request is safe
    there: it goes to the asset server. *)
Theorem websocket_fallback_is_nil (backtracks : bool)
    (config_error : option error) (s : setup) (rq : request) :
  Run config_error url_Parse "" = Ok s →
  wsHandler s = None
  ∧ (find_route backtracks (routes s) rq = h_catchAll →
     upgrade rq = true →
     ServeHTTP backtracks s rq = nil_dereference)
  ∧ (method rq = "GET" →
     (find_route backtracks (routes s) rq = h_catchAll ↔
      ¬ fixed_path (path rq)))
  ∧ (registered_by_Any (method rq) = true →
     ¬ fixed_path (path rq) →
     find_route backtracks (routes s) rq = h_catchAll)
  ∧ (registered_by_Any (method rq) = false →
     find_route backtracks (routes s) rq ≠ h_catchAll)
  ∧ (upgrade rq = false → catchAll s rq = by_http AssetServer).
Proof.
  destruct config_error as [e|]; [discriminate|].
  rewrite Run_without_dev_server. intros [= <-].
  split; [done|]. split; [|split; [|split; [|split]]].
  - intros Hroute Hup. unfold ServeHTTP. rewrite Hroute.
    unfold catchAll. by rewrite Hup.
  - by apply GET_reaches_catch_all.
  - by apply reaches_catch_all.
  - intros Hany. by rewrite unregistered_method_is_refused.
  - intros Hup. unfold catchAll. by rewrite Hup.
Qed.

End RoutesFacts.

Section RoutesRuns.
Import DevServer Routes Examples.

(** C10, as stated, fails: with no frontend dev server configured,
    [/wails/assetdir] is a path of its own as well.  A websocket
    request for it is neither for [/wails/ipc] nor for
    [/wails/reload], does not reach the catch-all route, and is
    answered by the handler of that path, whichever router echo has.
    Nor does the path alone decide: a request with the websocket header
    whose method echo's [Any] does not register is answered 405. *)
Lemma websocket_request_for_assetdir :
  Run None (λ u, Ok u) "" = Ok no_dev_server
  ∧ upgrade assetdir_upgrade = true
  ∧ path assetdir_upgrade ≠ "/wails/ipc"
  ∧ path assetdir_upgrade ≠ "/wails/reload"
  ∧ (∀ backtracks,
       find_route backtracks (routes no_dev_server) assetdir_upgrade
       = h_assetdir
       ∧ ServeHTTP backtracks no_dev_server assetdir_upgrade = by_assetdir)
  ∧ upgrade foo_upgrade = true
  ∧ (∀ backtracks,
       ServeHTTP backtracks no_dev_server foo_upgrade = method_not_allowed).
Proof.
  split; [reflexivity|]. split; [reflexivity|].
  split; [discriminate|]. split; [discriminate|].
  split; [by intros []|]. split; [reflexivity|]. by intros [].
Qed.

Lemma websocket_fallback_is_nil_witness :
  ServeHTTP true no_dev_server
    {| method := "GET"; path := "/@vite/client"; upgrade := true |}
  = nil_dereference.
Proof.
  destruct (websocket_fallback_is_nil (λ u, Ok u) true None no_dev_server
              {| method := "GET"; path := "/@vite/client";
                 upgrade := true |})
    as (_ & Hnil & Hget & _).
  - reflexivity.
  - apply Hnil; [|reflexivity]. apply Hget; [reflexivity|].
    intros [H|[H|H]]; discriminate H.
Defined.

End RoutesRuns.

(** ** Properties of the browser-side script *)
Section ClientFacts.
Import Client.

Implicit Types (st : state) (message : string).

Lemma set_wire_twice (w1 w2 : list string) st :
  set_wire w2 (set_wire w1 st) = set_wire w2 st.
Proof. by destruct st. Qed.

Lemma set_wire_same st : set_wire (wire st) st = st.
Proof. by destruct st. Qed.

(** Before the bridge is set up, a message is appended to the queue. *)
Lemma WailsInvoke_queues message st :
  wailsInvokeInternal st = false →
  WailsInvoke message st
  = Normal (set_queue (messageQueue st ++ [message])%list st).
Proof. intros H. unfold WailsInvoke. by rewrite H. Qed.

(** With the bridge set up and the socket open, it is sent. *)
Lemma WailsInvoke_sends message st :
  wailsInvokeInternal st = true → websocket st = Some OPEN →
  WailsInvoke message st = Normal (set_wire (wire st ++ [message])%list st).
Proof. intros H Hws. unfold WailsInvoke, send. by rewrite H, Hws. Qed.

(** With the bridge set up and no open socket, it is lost. *)
Lemma WailsInvoke_throws message st :
  wailsInvokeInternal st = true → websocket st ≠ Some OPEN →
  WailsInvoke message st = Thrown st.
Proof.
  intros H Hws. unfold WailsInvoke, send. rewrite H. cbn [negb].
  by destruct (websocket st) as [[]|].
Qed.

(** The loop of [setupIPCBridge] sends the queue from index [i] on, in
    order, for as many passes as it is given. *)
Lemma drain_sends (n : nat) :
  ∀ i st,
    wailsInvokeInternal st = true → websocket st = Some OPEN →
    drain n i st
    = Normal (set_wire (wire st ++ take n (drop i (messageQueue st)))%list st).
Proof.
  induction n as [|n IH]; intros i st Hbridge Hws.
  - cbn [drain take]. by rewrite app_nil_r, set_wire_same.
  - cbn [drain]. destruct (messageQueue st !! i) as [message|] eqn:E.
    + rewrite WailsInvoke_sends by done.
      rewrite IH by (by destruct st).
      rewrite set_wire_twice. rewrite (drop_S _ _ _ E).
      cbn [take]. f_equal. f_equal.
      destruct st; cbn. by rewrite <- app_assoc.
    + apply lookup_ge_None in E. rewrite drop_ge by done.
      rewrite take_nil. by rewrite app_nil_r, set_wire_same.
Qed.

(** When the socket opens, the queue goes out in order and is left
    empty, the timer is stopped and the events are rebound. *)
Lemma handleConnect_drains st :
  is_Some (websocket st) →
  ∃ st', handleConnect st = Normal st'
         ∧ wire st' = (wire st ++ messageQueue st)%list
         ∧ messageQueue st' = []
         ∧ wailsInvokeInternal st' = true
         ∧ websocket st' = Some OPEN
         ∧ connectTimer st' = false
         ∧ rebinds st' = S (rebinds st).
Proof.
  intros [ws Hws]. unfold handleConnect, setupIPCBridge. rewrite Hws.
  rewrite drain_sends by done.
  eexists. split; [reflexivity|].
  cbn. rewrite drop_0, firstn_all. done.
Qed.

Lemma run_snoc (events : list event) (e : event) :
  run (events ++ [e]) = step (run events) e.
Proof. unfold run. by rewrite fold_left_app. Qed.

(** Messages submitted before the first connection are all queued. *)
Lemma invoke_before_connect (messages : list string) :
  ∀ st,
    wailsInvokeInternal st = false →
    fold_left step (map Invoke messages) st
    = set_queue (messageQueue st ++ messages)%list st.
Proof.
  induction messages as [|m messages IH]; intros st H.
  - cbn. rewrite app_nil_r. by destruct st.
  - cbn [map fold_left step]. rewrite WailsInvoke_queues by done.
    rewrite IH by done. destruct st; cbn. by rewrite <- app_assoc.
Qed.

(** C8, amended.  Until the bridge has been set up, which the first
    successful connection does, a submitted message is appended to the
    queue and not sent.  When the socket opens, all queued messages
    are handed to the transport in the order they were submitted, each
    once, and the queue is empty afterwards.  A message submitted
    while the socket is open is sent at once and not queued. *)
Theorem queue_until_first_connect :
  (∀ st message,
      wailsInvokeInternal st = false →
      WailsInvoke message st
      = Normal (set_queue (messageQueue st ++ [message])%list st)
      ∧ wire (set_queue (messageQueue st ++ [message])%list st) = wire st)
  ∧ (∀ st,
      is_Some (websocket st) →
      ∃ st', handleConnect st = Normal st'
             ∧ wire st' = (wire st ++ messageQueue st)%list
             ∧ messageQueue st' = [])
  ∧ (∀ messages : list string,
      wire (run (map Invoke messages ++ [Opened])%list) = messages
      ∧ messageQueue (run (map Invoke messages ++ [Opened])%list) = []
      ∧ wire (run (map Invoke messages)) = []
      ∧ messageQueue (run (map Invoke messages)) = messages)
  ∧ (∀ st message,
      wailsInvokeInternal st = true → websocket st = Some OPEN →
      WailsInvoke message st
      = Normal (set_wire (wire st ++ [message])%list st)
      ∧ messageQueue (set_wire (wire st ++ [message])%list st)
        = messageQueue st).
Proof.
  split; [|split; [|split]].
  - intros st message H. split; [by apply WailsInvoke_queues|done].
  - intros st Hws.
    destruct (handleConnect_drains st Hws) as (st' & ? & ? & ? & _).
    eauto.
  - intros messages.
    assert (run (map Invoke messages)
            = set_queue messages (connect initial)) as Hrun.
    { unfold run. by rewrite invoke_before_connect. }
    rewrite run_snoc, Hrun. cbn [step].
    destruct (handleConnect_drains (set_queue messages (connect initial)))
      as (st' & -> & Hwire & Hqueue & _); [by eexists|].
    by rewrite Hwire, Hqueue.
  - intros st message H Hws. split; [by apply WailsInvoke_sends|done].
Qed.

End ClientFacts.

Section ClientRuns.
Import Client.

(** C8, as stated, fails: after a first connection the bridge stays
    set up.  Once the socket has closed, a submitted message is
    neither appended to the queue nor sent; the call ends in an
    exception, and the message is not delivered when the socket opens
    again.  The same holds when the new socket has failed and the
    script holds none. *)
Lemma message_lost_after_reconnect :
  websocket (run [Opened; Closed]) = Some CONNECTING
  ∧ WailsInvoke "Lhello" (run [Opened; Closed])
    = Thrown (run [Opened; Closed])
  ∧ messageQueue (run [Opened; Closed; Invoke "Lhello"]) = []
  ∧ wire (run [Opened; Closed; Invoke "Lhello"]) = []
  ∧ wire (run [Opened; Closed; Invoke "Lhello"; Opened]) = []
  ∧ websocket (run [Opened; Closed; Failed]) = None
  ∧ WailsInvoke "Lhello" (run [Opened; Closed; Failed])
    = Thrown (run [Opened; Closed; Failed]).
Proof. do 6 (split; [vm_compute; reflexivity|]). vm_compute. reflexivity. Qed.

Lemma queue_until_first_connect_witness :
  wire (run [Invoke "EBtick"; Failed; Tick; Invoke "Lhello"; Opened;
             Invoke "Lbye"])
  = ["EBtick"; "Lhello"; "Lbye"]
  ∧ wire (run (map Invoke ["EBtick"; "Lhello"] ++ [Opened])%list)
    = ["EBtick"; "Lhello"].
Proof.
  split; [vm_compute; reflexivity|].
  apply (proj1 (proj1 (proj2 (proj2 queue_until_first_connect))
                  ["EBtick"; "Lhello"])).
Defined.

End ClientRuns.

(** ** More on frame reassembly *)
Section ReassemblerMore.
Import Reassembler Examples.

Lemma collect_takes (conn : list string) :
  ∀ buffer msg m rest,
    collect buffer msg conn = Some (m, rest) →
    ∃ used, conn = (used ++ rest)%list ∧ m = buffer ++ join used.
Proof.
  induction conn as [|f conn IH]; intros buffer msg m rest; cbn [collect].
  - destruct (HasSuffix msg closer); [|done].
    intros [= <- <-]. exists []. by rewrite append_empty_r.
  - destruct (HasSuffix msg closer).
    + intros [= <- <-]. exists []. by rewrite append_empty_r.
    + intros H. apply IH in H as (used & -> & ->).
      exists (f :: used). split; [done|].
      cbn [join fold_right]. by rewrite append_assoc.
Qed.

(** X1.  Whatever the frames, a message handed on by the reassembler is
    the concatenation of the frames taken, at least one, in the order
    received, and the frames left over are exactly the frames behind
    them: no byte is dropped, repeated or moved. *)
Theorem receiveFull_takes_a_prefix (conn : list string) (m : string)
    (rest : list string) :
  receiveFull conn = Some (m, rest) →
  ∃ used, used ≠ [] ∧ conn = (used ++ rest)%list ∧ m = join used.
Proof.
  unfold receiveFull. destruct conn as [|f conn]; [done|]. cbn [Receive].
  destruct (HasPrefix f marker).
  - intros H. apply collect_takes in H as (used & -> & ->).
    exists (f :: used). by split.
  - intros [= <- <-]. exists [f]. split; [done|]. split; [done|].
    by rewrite join_singleton.
Qed.

Lemma receiveFull_takes_a_prefix_witness :
  ∃ used, used ≠ []
          ∧ (cut_in_value ++ ["EBping"])%list = (used ++ ["EBping"])%list
          ∧ example_message = join used.
Proof.
  apply (receiveFull_takes_a_prefix (cut_in_value ++ ["EBping"])%list
           example_message ["EBping"]).
  reflexivity.
Defined.

Lemma substring_skip (a b : string) (n m : nat) :
  substring (String.length a + n) m (a ++ b) = substring n m b.
Proof.
  induction a as [|x a IH]; [done|].
  rewrite append_cons. cbn [String.length Nat.add substring]. apply IH.
Qed.

(** A string that ends with [suffix] still does behind any other. *)
Lemma HasSuffix_append (a b suffix : string) :
  HasSuffix b suffix = true → HasSuffix (a ++ b) suffix = true.
Proof.
  unfold HasSuffix. intros H. apply andb_true_iff in H as [Hlen Heq].
  apply Nat.leb_le in Hlen. apply andb_true_iff. split.
  - apply Nat.leb_le. rewrite len_append. lia.
  - rewrite len_append.
    replace (len a + len b - len suffix)
      with (String.length a + (len b - len suffix))
      by (unfold len in *; lia).
    by rewrite substring_skip.
Qed.

Lemma HasPrefix_single_frame (f : string) :
  HasPrefix f marker = false → HasPrefix (join [f]) marker = false.
Proof. by rewrite join_singleton. Qed.

Lemma collect_ends_closed (conn : list string) :
  ∀ buffer pre msg m rest,
    buffer = pre ++ msg →
    collect buffer msg conn = Some (m, rest) →
    HasSuffix m closer = true.
Proof.
  induction conn as [|f conn IH]; intros buffer pre msg m rest Hbuf;
    cbn [collect].
  - destruct (HasSuffix msg closer) eqn:E; [|done].
    intros [= <- _]. rewrite Hbuf. by apply HasSuffix_append.
  - destruct (HasSuffix msg closer) eqn:E.
    + intros [= <- _]. rewrite Hbuf. by apply HasSuffix_append.
    + apply (IH (buffer ++ f) buffer f m rest). done.
Qed.

(** X2.  Every message that leaves the reassembler beginning with the
    marker also ends with the closing bytes: a fragmented call message
    never reaches the loop body unterminated. *)
Theorem marked_message_is_closed (conn : list string) (m : string)
    (rest : list string) :
  receiveFull conn = Some (m, rest) →
  HasPrefix m marker = true →
  HasSuffix m closer = true.
Proof.
  unfold receiveFull. destruct conn as [|f conn]; [done|]. cbn [Receive].
  destruct (HasPrefix f marker) eqn:Hf.
  - intros H _. by apply (collect_ends_closed conn f "" f m rest).
  - intros [= <- _] Hm. congruence.
Qed.

Lemma marked_message_is_closed_witness :
  HasSuffix example_message closer = true.
Proof.
  apply (marked_message_is_closed (cut_in_value ++ ["EBping"])%list
           example_message ["EBping"]); reflexivity.
Defined.

Lemma collect_unterminated (conn : list string) :
  ∀ buffer msg,
    HasSuffix msg closer = false →
    Forall (λ f, HasSuffix f closer = false) conn →
    collect buffer msg conn = None.
Proof.
  induction conn as [|f conn IH]; intros buffer msg Hmsg Hall.
  - by apply collect_stall.
  - apply Forall_cons in Hall as [Hf Hall].
    rewrite collect_more by done. by apply IH.
Qed.

End ReassemblerMore.

(** ** More on the relay *)
Section RelayMore.
Import DevServer.
Context `{Ext : Externals}.

Implicit Types (d : DevWebServer) (c : N) (m : string).

(** X3.  A pass through the loop body for connection [c] leaves the
    entry of every other connection as it was and never adds or removes
    a connection: a read loop writes to its own subscription state
    only. *)
Theorem loopBody_touches_own_entry_only d c m :
  (∀ c', c' ≠ c →
     websocketClients (loopBody d c m).1.1 !! c' = websocketClients d !! c')
  ∧ dom (websocketClients (loopBody d c m).1.1) = dom (websocketClients d).
Proof.
  rewrite loopBody_clients. split.
  - intros c' Hne. destruct (branch_of m); try done;
      by rewrite lookup_alter_ne.
  - destruct (branch_of m); try done; by rewrite dom_alter_L.
Qed.

Lemma readLoop_others (fuel : nat) :
  ∀ d c (conn : list string) d' effects,
    readLoop fuel d c conn = Some (d', effects) →
    ∀ c', c' ≠ c → websocketClients d' !! c' = websocketClients d !! c'.
Proof.
  induction fuel as [|fuel IH]; intros d c conn d' effects; [done|].
  cbn [readLoop].
  destruct (Reassembler.receiveFull conn) as [[m rest]|];
    [|by intros [= <- _]].
  pose proof (proj1 (loopBody_touches_own_entry_only d c m)) as Hstep.
  destruct (loopBody d c m) as [[d1 effects1] [|]]; cbn [fst] in Hstep.
  - destruct (readLoop fuel d1 c rest) as [[d2 effects2]|] eqn:E; [|done].
    intros [= <- _] c' Hne. rewrite (IH _ _ _ _ _ E c' Hne). by apply Hstep.
  - intros [= <- _]. exact Hstep.
Qed.

(** X4.  The handler of a connection always returns, and when it has,
    the registry is the registry it started from without the entry of
    that connection: whatever the connection sent, no subscription of
    it and no change to any other connection is left behind. *)
Theorem handleIPCWebSocket_leaves_no_trace d c (conn : list string) :
  ∃ d' effects,
    handleIPCWebSocket d c conn = Some (d', effects)
    ∧ websocketClients d' = delete c (websocketClients d).
Proof.
  unfold handleIPCWebSocket.
  destruct (readLoop_returns (S (List.length conn)) (register d c) c conn)
    as [[d1 effects] E]; [lia|].
  rewrite E. exists (unregister d1 c), effects. split; [done|].
  unfold unregister. cbn [websocketClients with_clients].
  apply map_eq. intros c'. destruct (decide (c' = c)) as [->|Hne].
  - by rewrite !lookup_delete_eq.
  - rewrite !lookup_delete_ne by done.
    rewrite (readLoop_others _ _ _ _ _ _ E c' Hne).
    unfold register. cbn [websocketClients with_clients].
    by rewrite lookup_insert_ne.
Qed.

(** X5.  A connection whose first frame begins with the marker and none
    of whose frames ends with the closing bytes gets nothing done: the
    handler ends when the frames run out, with no effect at all, and the
    partial message is handed to nobody. *)
Theorem unterminated_message_is_discarded d c (first : string)
    (more : list string) :
  HasPrefix first Reassembler.marker = true →
  Forall (λ f, HasSuffix f Reassembler.closer = false) (first :: more) →
  ∃ d', handleIPCWebSocket d c (first :: more) = Some (d', [])
        ∧ websocketClients d' = delete c (websocketClients d).
Proof.
  intros Hfirst Hall. apply Forall_cons in Hall as [Hf Hmore].
  assert (Reassembler.receiveFull (first :: more) = None) as Hnone.
  { rewrite receiveFull_marked by done. by apply collect_unterminated. }
  destruct (handleIPCWebSocket_leaves_no_trace d c (first :: more))
    as (d' & effects & E & Hclients).
  exists d'. split; [|done]. rewrite E. f_equal. f_equal.
  unfold handleIPCWebSocket in E. cbn [readLoop] in E.
  rewrite Hnone in E. by injection E as _ <-.
Qed.

(** *** Broadcasts *)

Lemma recipients_app (l1 l2 : list effect) :
  recipients (l1 ++ l2) = (recipients l1 ++ recipients l2)%list.
Proof. apply omap_app. Qed.

Lemma recipients_send_logged c m : recipients (send_logged c m) = [c].
Proof. unfold send_logged. by destruct (Send_error c m). Qed.

Lemma recipients_bind_sublist (f : N * WebsocketInfo → list effect)
    (entries : list (N * WebsocketInfo)) :
  (∀ entry, recipients (f entry) = [entry.1] ∨ recipients (f entry) = []) →
  recipients (entries ≫= f) `sublist_of` entries.*1.
Proof.
  intros Hf. induction entries as [|entry entries IH]; [done|].
  rewrite bind_cons, recipients_app, fmap_cons.
  destruct (Hf entry) as [-> | ->]; cbn [app].
  - by apply sublist_skip.
  - by apply sublist_cons.
Qed.

(** X6.  One broadcast writes to a connection at most once, on either
    broadcast path. *)
Theorem broadcast_writes_once d (message name : string) (sender : N) :
  NoDup (recipients (broadcast d message name))
  ∧ NoDup (recipients (broadcastExcludingSender d message sender)).
Proof.
  split.
  - apply (sublist_NoDup _ (map_to_list (websocketClients d)).*1);
      [apply NoDup_fst_map_to_list|].
    apply recipients_bind_sublist. intros [c info]. unfold broadcast_one.
    destruct (N.eqb_spec c nilConn); [by right|].
    destruct (String.eqb_spec name ""); cbn [negb fst];
      [left; apply recipients_send_logged|].
    destruct (Load name info); [left; apply recipients_send_logged|by right].
  - apply (sublist_NoDup _ (map_to_list (websocketClients d)).*1);
      [apply NoDup_fst_map_to_list|].
    apply recipients_bind_sublist. intros [c info].
    unfold broadcastExcludingSender_one.
    destruct (N.eqb_spec c sender); [by right|].
    left. apply recipients_send_logged.
Qed.

Lemma send_logged_failure c m e :
  Send_error c m = Some e → logger_Error e ∈ send_logged c m.
Proof.
  intros H. unfold send_logged. rewrite H. apply elem_of_cons. right.
  by left.
Qed.

(** X7.  A write of a broadcast that fails is logged with its error, on
    either broadcast path; the broadcast goes on to the other
    connections all the same (who is written to does not depend on any
    write succeeding). *)
Theorem broadcast_logs_failed_write d (message name : string) (sender c : N)
    (e : error) :
  Send_error c message = Some e →
  (Message_Send c message ∈ broadcast d message name →
   logger_Error e ∈ broadcast d message name)
  ∧ (Message_Send c message ∈ broadcastExcludingSender d message sender →
     logger_Error e ∈ broadcastExcludingSender d message sender).
Proof.
  intros Herr. split.
  - rewrite elem_of_broadcast. intros (_ & Hnil & info & Hinfo & Hsub).
    unfold broadcast. apply list_elem_of_bind. exists (c, info).
    split; [|by apply elem_of_map_to_list]. unfold broadcast_one.
    destruct (N.eqb_spec c nilConn); [done|].
    destruct (String.eqb_spec name ""); cbn [negb];
      [by apply send_logged_failure|].
    destruct Hsub as [?|[v Hv]]; [done|]. rewrite Hv.
    by apply send_logged_failure.
  - rewrite elem_of_broadcastExcludingSender. intros (_ & Hne & [info Hinfo]).
    unfold broadcastExcludingSender. apply list_elem_of_bind. exists (c, info).
    split; [|by apply elem_of_map_to_list].
    unfold broadcastExcludingSender_one.
    destruct (N.eqb_spec c sender); [done|]. by apply send_logged_failure.
Qed.

(** X8.  A notification of the host goes, as its JSON encoding behind
    the byte [n], to the registered connections that hold a
    subscription to its name, and to every registered connection when
    the name is empty; when the encoding fails, the error is logged and
    nothing is written to anybody. *)
Theorem Notify_reaches_subscribers d (name : string) (data : list json) :
  (∀ e, json_Marshal {| Name := name; Data := data |} = Err e →
        Notify d name data = [logger_Error e])
  ∧ (∀ payload c m,
       json_Marshal {| Name := name; Data := data |} = Ok payload →
       (Message_Send c m ∈ Notify d name data ↔
        m = "n" ++ payload ∧ c ≠ nilConn ∧
        ∃ info, websocketClients d !! c = Some info
                ∧ (name = "" ∨ is_Some (Load name info)))).
Proof.
  unfold Notify, notify. split.
  - by intros e ->.
  - intros payload c m ->. apply elem_of_broadcast.
Qed.

(** X9.  A connection that has just been registered holds no
    subscription, also when its address was registered before with
    subscriptions: a broadcast that requires a name does not write to
    it. *)
Theorem registered_connection_starts_unsubscribed d c (name message : string) :
  name ≠ "" →
  websocketClients (register d c) !! c = Some emptyInfo
  ∧ Message_Send c message ∉ broadcast (register d c) message name.
Proof.
  intros Hname.
  assert (websocketClients (register d c) !! c = Some emptyInfo) as Hc.
  { unfold register. cbn [websocketClients with_clients].
    by rewrite lookup_insert_eq. }
  split; [done|]. rewrite elem_of_broadcast.
  intros (_ & _ & info & Hinfo & [?|[v Hv]]); [done|].
  rewrite Hc in Hinfo. injection Hinfo as <-.
  unfold Load, emptyInfo in Hv. cbn [eventCache] in Hv.
  by rewrite lookup_empty in Hv.
Qed.

(** X10.  For a connection that does not hold a subscription to [name],
    subscribing to it and then unsubscribing from it gives back the
    registry as it was. *)
Theorem subscribe_then_unsubscribe d c (name : string) :
  name ≠ "" →
  (∀ info, websocketClients d !! c = Some info → Load name info = None) →
  websocketClients
    (loopBody (loopBody d c ("EB" ++ name)).1.1 c ("EX" ++ name)).1.1
  = websocketClients d.
Proof.
  intros Hname Hnone.
  rewrite unsubscribe_clients by done.
  rewrite loopBody_clients, branch_of_EB by done.
  change ("EB" ++ name) with (String "E" (String "B" name)).
  rewrite slice_from_tagged.
  apply map_eq. intros c'. destruct (decide (c = c')) as [<-|Hne].
  - rewrite !lookup_alter_eq.
    destruct (websocketClients d !! c) as [info|] eqn:E; [|done].
    cbn. f_equal. specialize (Hnone info eq_refl).
    destruct info as [cache]. unfold Delete, Store, Load in *.
    cbn [eventCache] in *. f_equal.
    rewrite delete_insert_eq. by apply delete_id.
  - by rewrite !lookup_alter_ne.
Qed.

End RelayMore.

(** ** More on the routes *)
Section RoutesMore.
Import DevServer Routes.

Variable url_Parse : string → outcome string.

(** X11.  [Run] fails before serving exactly when the asset server
    configuration cannot be built or a frontend dev server URL is
    configured that does not parse, and it returns that error. *)
Theorem Run_fails_exactly_when (config_error : option error)
    (url : string) (e : error) :
  Run config_error url_Parse url = Err e ↔
  config_error = Some e
  ∨ (config_error = None ∧ url ≠ "" ∧ url_Parse url = Err e).
Proof.
  unfold Run. destruct config_error as [e0|].
  - split; [intros [= ->]; by left|]. by intros [[= ->]|[? _]].
  - destruct (String.eqb_spec url "") as [->|Hurl].
    + split; [done|]. by intros [?|(_ & ? & _)].
    + destruct (url_Parse url) as [target|e0].
      * split; [done|]. by intros [?|(_ & _ & ?)].
      * split; [intros [= ->]; by right|]. by intros [?|(_ & _ & [= ->])].
Qed.

Lemma find_route_with_dev_server (backtracks : bool) (rq : request) :
  find_route backtracks
    [ {| r_method := Some "GET"; r_path := "/wails/reload";
         r_handler := h_handleReload |};
      {| r_method := Some "GET"; r_path := "/wails/ipc";
         r_handler := h_handleIPCWebSocket |};
      {| r_method := None; r_path := "/*"; r_handler := h_catchAll |} ] rq
  = if String.eqb "GET" (method rq) && String.eqb "/wails/reload" (path rq)
    then h_handleReload
    else if String.eqb "GET" (method rq) && String.eqb "/wails/ipc" (path rq)
    then h_handleIPCWebSocket
    else if (String.eqb "/wails/reload" (path rq)
             || String.eqb "/wails/ipc" (path rq))
            && negb backtracks
    then h_MethodNotAllowed
    else if registered_by_Any (method rq) then h_catchAll
    else h_MethodNotAllowed.
Proof.
  unfold find_route.
  cbn [List.find existsb matches_static matches_path is_Any
       r_method r_path r_handler].
  destruct (String.eqb "GET" (method rq));
    destruct (String.eqb "/wails/reload" (path rq));
    destruct (String.eqb "/wails/ipc" (path rq));
    destruct backtracks; reflexivity.
Qed.

(** X12.  With a frontend dev server configured, the websocket fallback
    is the reverse proxy to the parsed URL: no request calls a nil
    handler, and every websocket request of a method that echo's [Any]
    registers, for a path other than [/wails/reload] and [/wails/ipc],
    is proxied, the asset directory path included, for which no route
    is registered in this configuration. *)
Theorem dev_server_proxies_websockets (backtracks : bool)
    (config_error : option error) (url : string) (s : setup)
    (rq : request) :
  url ≠ "" →
  Run config_error url_Parse url = Ok s →
  ∃ target,
    url_Parse url = Ok target
    ∧ wsHandler s = Some (ReverseProxy target)
    ∧ ServeHTTP backtracks s rq ≠ nil_dereference
    ∧ (upgrade rq = true →
       registered_by_Any (method rq) = true →
       path rq ≠ "/wails/reload" → path rq ≠ "/wails/ipc" →
       ServeHTTP backtracks s rq = by_http (ReverseProxy target))
    ∧ ServeHTTP backtracks s {| method := "GET"; path := "/wails/assetdir";
                                upgrade := true |}
      = by_http (ReverseProxy target).
Proof.
  intros Hurl. unfold Run. destruct config_error as [e0|]; [done|].
  destruct (String.eqb_spec url ""); [done|].
  destruct (url_Parse url) as [target|e0]; [|done].
  intros [= <-]. exists target. split; [done|]. split; [done|].
  unfold ServeHTTP. cbn [routes wsHandler app].
  rewrite !find_route_with_dev_server. split; [|split].
  - repeat case_match; try done. unfold catchAll. cbn [wsHandler].
    by destruct (upgrade rq).
  - intros Hup Hany Hp1 Hp2.
    destruct (String.eqb_spec "/wails/reload" (path rq)) as [?|_];
      [congruence|].
    destruct (String.eqb_spec "/wails/ipc" (path rq)) as [?|_];
      [congruence|].
    rewrite !andb_false_r, Hany. cbn [orb andb].
    unfold catchAll. cbn [wsHandler]. by rewrite Hup.
  - by destruct backtracks.
Qed.

(** X13.  In every configuration in which [Run] gets to serve, a [GET]
    of [/wails/ipc], which is what the browser script connects to, is
    handled by the websocket handler of the relay, and a [GET] of
    [/wails/reload] by the reload trigger; neither can fall to the
    catch-all route. *)
Theorem ipc_and_reload_are_always_routed (backtracks : bool)
    (config_error : option error) (url : string) (s : setup) (up : bool) :
  Run config_error url_Parse url = Ok s →
  ServeHTTP backtracks s
    {| method := "GET"; path := "/wails/ipc"; upgrade := up |}
  = by_handleIPCWebSocket
  ∧ ServeHTTP backtracks s
      {| method := "GET"; path := "/wails/reload"; upgrade := up |}
    = by_handleReload.
Proof.
  unfold Run. destruct config_error as [e0|]; [done|].
  destruct (String.eqb url "").
  - by intros [= <-].
  - destruct (url_Parse url) as [target|e0]; [|done]. by intros [= <-].
Qed.

End RoutesMore.

(** ** More on the browser-side script *)
Section ClientMore.
Import Client.

Implicit Types (st : state) (message : string).

Lemma in_order_step st (e : event) (submitted : list string) :
  admissible_step st e = true →
  in_order st submitted →
  in_order (step st e) (submitted ++ invoked [e]).
Proof.
  intros Hadm [Hsub Hqueue]. destruct e as [message| | | |]; cbn [step invoked omap].
  - destruct (wailsInvokeInternal st) eqn:Hbridge.
    + specialize (Hqueue eq_refl). rewrite Hqueue, app_nil_r in Hsub.
      assert (websocket st = Some OPEN ∨ websocket st ≠ Some OPEN)
        as [Hws|Hws] by (destruct (websocket st) as [[]|]; eauto).
      * rewrite WailsInvoke_sends by done. split.
        -- destruct st; cbn in *. subst. rewrite app_nil_r.
           by apply sublist_app.
        -- by destruct st.
      * rewrite WailsInvoke_throws by done. split.
        -- rewrite Hqueue, app_nil_r. by apply sublist_inserts_r.
        -- done.
    + rewrite WailsInvoke_queues by done. split.
      * destruct st; cbn in *. rewrite app_assoc. by apply sublist_app.
      * destruct st; cbn in *. congruence.
  - rewrite app_nil_r. unfold _connect.
    destruct (connectTimer st); [|done].
    destruct (websocket st); [done|]. by destruct st.
  - rewrite app_nil_r. cbn [admissible_step] in Hadm.
    destruct (websocket st) as [ws|] eqn:Hws; [|done].
    destruct (handleConnect_drains st) as (st' & -> & Hw & Hq & _);
      [by rewrite Hws|].
    split; [|done]. by rewrite Hw, Hq, app_nil_r.
  - rewrite app_nil_r. unfold handleDisconnect, connect, _connect.
    by destruct st.
  - rewrite app_nil_r. unfold onerror. by destruct st.
Qed.

Lemma invoked_cons (e : event) (events : list event) :
  invoked (e :: events) = (invoked [e] ++ invoked events)%list.
Proof. unfold invoked. cbn [omap]. by destruct e. Qed.

Lemma in_order_run (events : list event) :
  ∀ st submitted,
    admissible st events = true →
    in_order st submitted →
    in_order (fold_left step events st) (submitted ++ invoked events).
Proof.
  induction events as [|e events IH]; intros st submitted Hadm Hin.
  - cbn. by rewrite app_nil_r.
  - cbn [admissible] in Hadm. apply andb_true_iff in Hadm as [He Hadm].
    cbn [fold_left]. rewrite invoked_cons, app_assoc.
    apply IH; [done|]. by apply in_order_step.
Qed.

Lemma in_order_start : in_order (connect initial) [].
Proof. split; [by cbn|done]. Qed.

(** X14.  Whatever happens to the connection, the transport is handed
    only messages that were submitted, in the order of their
    submission, and each at most once. *)
Theorem wire_is_in_submission_order (events : list event) :
  admissible (connect initial) events = true →
  wire (run events) `sublist_of` invoked events.
Proof.
  intros Hadm.
  destruct (in_order_run events (connect initial) [] Hadm in_order_start)
    as [Hsub _].
  cbn [app] in Hsub. unfold run.
  etrans; [|exact Hsub]. by apply sublist_inserts_r.
Qed.

(** X15.  Once the bridge has been set up, which the first opening of a
    socket does, the queue is empty and stays empty: nothing is ever
    queued again, whatever the state of the connection. *)
Theorem nothing_queued_once_bridged (events : list event) :
  admissible (connect initial) events = true →
  wailsInvokeInternal (run events) = true →
  messageQueue (run events) = [].
Proof.
  intros Hadm.
  destruct (in_order_run events (connect initial) [] Hadm in_order_start)
    as [_ Hqueue].
  exact Hqueue.
Qed.

Section HostFacts.
Variable URL : string → option (string * string).

(** X16.  [get_host] looks for the address once: where it comes from is
    the current script, else the last script, else the location of the
    page; after a call that found a host that is not empty, every later
    call keeps host and protocol, whatever the page has become, and the
    socket address is the websocket scheme chosen by the protocol, the
    host and the path of the relay. *)
Theorem get_host_discovers_once (pg pg' : page) (loc : locator) :
  get_host URL pg {| host := None; protocol := None |} = Some loc →
  (match currentScript_src pg, lastScript_src pg with
   | Some src, _ | None, Some src =>
       ∃ h p, URL src = Some (h, p)
              ∧ loc = {| host := Some h; protocol := Some p |}
   | None, None =>
       loc = {| host := Some (location_host pg);
                protocol := Some (location_protocol pg) |}
   end)
  ∧ (∃ h p, host loc = Some h ∧ protocol loc = Some p
            ∧ socket_url loc
              = Some ((if String.prefix "https" p then "wss://" else "ws://")
                      ++ h ++ "/wails/ipc"))
  ∧ (truthy (host loc) = true → get_host URL pg' loc = Some loc).
Proof.
  unfold get_host at 1. cbn [truthy host].
  assert (∀ h p, {| host := Some h; protocol := Some p |} = loc →
                 (∃ h0 p0, host loc = Some h0 ∧ protocol loc = Some p0
                    ∧ socket_url loc
                      = Some ((if String.prefix "https" p0
                               then "wss://" else "ws://")
                              ++ h0 ++ "/wails/ipc"))
                 ∧ (truthy (host loc) = true →
                    get_host URL pg' loc = Some loc)) as Hrest.
  { intros h p <-. split; [by exists h, p|].
    intros Ht. unfold get_host. by rewrite Ht. }
  destruct (currentScript_src pg) as [src|].
  - destruct (URL src) as [[h p]|] eqn:E; [|done].
    intros [= <-]. split; [by exists h, p|]. by apply (Hrest h p).
  - destruct (lastScript_src pg) as [src|].
    + destruct (URL src) as [[h p]|] eqn:E; [|done].
      intros [= <-]. split; [by exists h, p|]. by apply (Hrest h p).
    + intros [= <-]. split; [done|].
      by apply (Hrest (location_host pg) (location_protocol pg)).
Qed.

End HostFacts.

End ClientMore.

(** ** The relay and the browser script together *)
Section EndToEnd.
Import DevServer.
Context `{Ext : Externals}.

Implicit Types (d : DevWebServer) (c : N) (m : string).

Lemma handleMessage_notify (payload : string) :
  Client.handleMessage ("n" ++ payload) = Client.wails_EventsNotify payload.
Proof. reflexivity. Qed.

(** X17.  What the relay writes for an event reaches the event system of
    the browser with exactly the payload that was sent: a connection
    written to by the rebroadcast of an event message is not its sender
    and takes the message as a notification carrying the bytes behind
    the [EE] tag; a connection written to by a host notification takes
    it as a notification carrying the JSON encoding. *)
Theorem notifications_reach_the_event_system d c m :
  (∀ (a : N) (msg : string),
      2 < len msg → slice_to 2 msg = "EE" →
      Message_Send c m ∈ notifyExcludingSender d msg a →
      c ≠ a
      ∧ Client.handleMessage m = Client.wails_EventsNotify (slice_from 2 msg))
  ∧ (∀ (name : string) (data : list json) (payload : string),
      json_Marshal {| Name := name; Data := data |} = Ok payload →
      Message_Send c m ∈ Notify d name data →
      Client.handleMessage m = Client.wails_EventsNotify payload).
Proof.
  split.
  - intros a msg _ _. unfold notifyExcludingSender. rewrite elem_of_app.
    intros [H|H].
    + apply elem_of_broadcastExcludingSender in H as (-> & Hne & _).
      split; [done|]. apply handleMessage_notify.
    + destruct (json_Unmarshal _);
        apply list_elem_of_singleton in H; discriminate.
  - intros name data payload Hpayload H.
    apply (proj2 (Notify_reaches_subscribers d name data) payload c m Hpayload)
      in H as (-> & _).
    apply handleMessage_notify.
Qed.

(** X18.  A reload of the host reaches every browser: [WindowReload]
    and [WindowReloadApp] tell the host frontend, write to every
    registered connection, and every message they write is taken by the
    browser script as the matching reload and as nothing else. *)
Theorem reloads_reach_the_browsers d :
  (∀ c m, Message_Send c m ∈ WindowReload d →
          Client.handleMessage m = Client.runtime_WindowReload)
  ∧ (∀ c m, Message_Send c m ∈ WindowReloadApp d →
            Client.handleMessage m = Client.runtime_WindowReloadApp)
  ∧ Frontend_WindowReloadApp ∈ WindowReloadApp d
  ∧ (∀ c, c ≠ nilConn → is_Some (websocketClients d !! c) →
          Message_Send c "reloadapp" ∈ WindowReloadApp d).
Proof.
  split; [|split; [|split]].
  - intros c m. unfold WindowReload. rewrite elem_of_app.
    intros [H|H]; [|apply list_elem_of_singleton in H; discriminate].
    by apply elem_of_broadcast in H as (-> & _).
  - intros c m. unfold WindowReloadApp. rewrite elem_of_app.
    intros [H|H]; [|apply list_elem_of_singleton in H; discriminate].
    by apply elem_of_broadcast in H as (-> & _).
  - unfold WindowReloadApp. apply elem_of_app. right. by left.
  - intros c Hnil [info Hinfo]. unfold WindowReloadApp.
    apply elem_of_app. left. apply elem_of_broadcast. eauto 6.
Qed.

End EndToEnd.

(** ** The asset server of dev mode *)
Section AssetServerFacts.
Import DevServer AssetServerDev.

Lemma substring_of_nothing (n m : nat) : substring n m "" = "".
Proof. by destruct n, m. Qed.

Lemma substring_prefix_app (a b : string) :
  substring 0 (String.length a) (a ++ b) = a.
Proof.
  induction a as [|x a IH].
  - cbn [String.length]. rewrite append_nil_l. apply substring_none.
  - rewrite append_cons. cbn [String.length substring]. by rewrite IH.
Qed.

Lemma slice_from_cons (n : nat) (x : ascii) (s : string) :
  slice_from (S n) (String x s) = slice_from n s.
Proof. reflexivity. Qed.

(** A string is what precedes a substring of it, the substring, and
    what follows. *)
Lemma substring_split (s : string) :
  ∀ n m, String.length (substring n m s) = m →
         s = substring 0 n s ++ substring n m s ++ slice_from (n + m) s.
Proof.
  induction s as [|x s IH]; intros n m Hlen.
  - rewrite substring_of_nothing in Hlen. cbn in Hlen. subst m.
    unfold slice_from. by rewrite !substring_of_nothing.
  - destruct n as [|n].
    + rewrite substring_none, append_nil_l. cbn [Nat.add].
      destruct m as [|m].
      * rewrite substring_none, append_nil_l. unfold slice_from, len.
        rewrite Nat.sub_0_r. by rewrite substring_whole.
      * cbn [substring] in *. cbn [String.length] in Hlen.
        injection Hlen as Hlen. rewrite append_cons, slice_from_cons.
        f_equal. specialize (IH 0 m Hlen).
        by rewrite substring_none, append_nil_l in IH.
    + cbn [substring Nat.add] in *. rewrite append_cons, slice_from_cons.
      f_equal. by apply IH.
Qed.

(** [Contains] finds its argument exactly when it occurs somewhere. *)
Lemma Contains_occurs (s substr : string) :
  Contains s substr = true ↔ ∃ a b, s = a ++ substr ++ b.
Proof.
  unfold Contains. split.
  - destruct (index 0 substr s) as [n|] eqn:E; [|done]. intros _.
    apply index_correct1 in E.
    exists (substring 0 n s), (slice_from (n + String.length substr) s).
    pose proof (substring_split s n (String.length substr)) as H.
    rewrite E in H. by apply H.
  - intros (a & b & ->).
    destruct (index 0 substr (a ++ substr ++ b)) as [n|] eqn:E; [done|].
    exfalso. destruct substr as [|x substr].
    + apply index_correct4 in E. lia.
    + apply (index_correct3 0 (String.length a)) in E; [|done|lia].
      apply E. rewrite <- (Nat.add_0_r (String.length a)).
      rewrite substring_skip. apply substring_prefix_app.
Qed.

Variable WailsUserAgentValue : string.

(** X19.  The dev asset server passes on the error of the asset server
    it is built from; built, it appends the spinner and serves the
    desktop IPC script to exactly the requests whose [User-Agent]
    contains the Wails marker, wherever in it, and the websocket IPC
    script to every other request. *)
Theorem ipcJS_by_user_agent (base : outcome AssetServer)
    (runtime : RuntimeAssets) :
  match base with
  | Err e => NewDevAssetServer WailsUserAgentValue base runtime = Err e
  | Ok _ =>
      ∃ server script,
        NewDevAssetServer WailsUserAgentValue base runtime = Ok server
        ∧ appendSpinnerToBody server = true
        ∧ ipcJS server = Some script
        ∧ (∀ a b, script (a ++ WailsUserAgentValue ++ b) = DesktopIPC runtime)
        ∧ (∀ userAgent,
             (∀ a b, userAgent ≠ a ++ WailsUserAgentValue ++ b) →
             script userAgent = WebsocketIPC runtime)
  end.
Proof.
  destruct base as [server0|e]; [|done].
  eexists _, _. split; [reflexivity|]. split; [done|]. split; [reflexivity|].
  split.
  - intros a b. cbn beta.
    by rewrite (proj2 (Contains_occurs _ _)) by eauto.
  - intros userAgent Hnot. cbn beta.
    destruct (Contains userAgent WailsUserAgentValue) eqn:E; [|done].
    apply Contains_occurs in E as (a & b & ->). by destruct (Hnot a b).
Qed.

End AssetServerFacts.

(** ** The added properties on concrete inputs *)
Section MoreRuns.
Import DevServer Routes Client AssetServerDev Examples.

Lemma loopBody_touches_own_entry_only_witness :
  websocketClients (loopBody (Ext := quiet) quiet_server A "EXping").1.1 !! B
  = Some (Store "ping" true emptyInfo).
Proof.
  rewrite (proj1 (@loopBody_touches_own_entry_only quiet quiet_server A
                    "EXping") B); [|discriminate].
  reflexivity.
Defined.

Lemma unterminated_message_is_discarded_witness :
  ∃ d', handleIPCWebSocket (Ext := quiet) quiet_server B
          [Reassembler.marker ++ "a"; "bc"] = Some (d', [])
        ∧ websocketClients d' = delete B three_clients.
Proof.
  apply (@unterminated_message_is_discarded quiet quiet_server B
           (Reassembler.marker ++ "a") ["bc"]).
  - reflexivity.
  - repeat constructor.
Defined.

Lemma broadcast_logs_failed_write_witness :
  logger_Error "broken pipe"
  ∈ broadcast (Ext := flaky) flaky_server "reload" "".
Proof.
  apply (proj1 (@broadcast_logs_failed_write flaky flaky_server
                  "reload" "" A C "broken pipe" eq_refl)).
  apply (@elem_of_broadcast flaky). split; [reflexivity|].
  split; [discriminate|]. exists emptyInfo. split; [reflexivity|by left].
Defined.

Lemma Notify_reaches_subscribers_witness :
  Message_Send B ("n" ++ ping_payload)
  ∈ Notify (Ext := quiet) quiet_server "ping" [].
Proof.
  apply (proj2 (@Notify_reaches_subscribers quiet quiet_server "ping" [])
           ping_payload B ("n" ++ ping_payload) eq_refl).
  split; [done|]. split; [discriminate|].
  exists (Store "ping" true emptyInfo). split; [reflexivity|].
  right. vm_compute. eauto.
Defined.

Lemma registered_connection_starts_unsubscribed_witness :
  Message_Send B "npayload"
  ∉ broadcast (Ext := quiet) (register (Ext := quiet) quiet_server B)
      "npayload" "ping".
Proof.
  apply (@registered_connection_starts_unsubscribed quiet quiet_server B
           "ping" "npayload").
  discriminate.
Defined.

Lemma subscribe_then_unsubscribe_witness :
  websocketClients
    (loopBody (Ext := quiet)
       (loopBody (Ext := quiet) quiet_server A "EBtick").1.1 A "EXtick").1.1
  = three_clients.
Proof.
  apply (@subscribe_then_unsubscribe quiet quiet_server A "tick").
  - discriminate.
  - intros info Hinfo. vm_compute in Hinfo. by injection Hinfo as <-.
Defined.

Lemma Run_fails_exactly_when_witness :
  Run None (λ _, Err "missing protocol scheme") "::" = Err "missing protocol scheme".
Proof.
  apply (Run_fails_exactly_when (λ _, Err "missing protocol scheme") None
           "::" "missing protocol scheme").
  right. split; [done|]. split; [discriminate|done].
Defined.

Lemma dev_server_proxies_websockets_witness :
  ServeHTTP true vite_setup
    {| method := "GET"; path := "/@vite/client"; upgrade := true |}
  = by_http (ReverseProxy "http://localhost:5173")
  ∧ ServeHTTP true vite_setup foo_upgrade ≠ nil_dereference.
Proof.
  destruct (dev_server_proxies_websockets (λ u, Ok u) true None
              "http://localhost:5173" vite_setup
              {| method := "GET"; path := "/@vite/client";
                 upgrade := true |})
    as (target & Htarget & _ & _ & Hproxy & _);
    [discriminate|reflexivity|].
  destruct (dev_server_proxies_websockets (λ u, Ok u) true None
              "http://localhost:5173" vite_setup foo_upgrade)
    as (_ & _ & _ & Hsafe & _); [discriminate|reflexivity|].
  injection Htarget as <-. split; [|exact Hsafe].
  apply Hproxy; try reflexivity; discriminate.
Defined.

Lemma ipc_and_reload_are_always_routed_witness :
  ServeHTTP true no_dev_server
    {| method := "GET"; path := "/wails/ipc"; upgrade := true |}
  = by_handleIPCWebSocket
  ∧ ServeHTTP true no_dev_server
      {| method := "GET"; path := "/wails/reload"; upgrade := true |}
    = by_handleReload.
Proof.
  apply (ipc_and_reload_are_always_routed (λ u, Ok u) true None ""
           no_dev_server true).
  reflexivity.
Defined.

Lemma wire_is_in_submission_order_witness :
  wire (run [Invoke "EBtick"; Opened; Closed; Invoke "Llost"; Opened;
             Invoke "Lbye"])
  `sublist_of` ["EBtick"; "Llost"; "Lbye"].
Proof.
  apply (wire_is_in_submission_order
           [Invoke "EBtick"; Opened; Closed; Invoke "Llost"; Opened;
            Invoke "Lbye"]).
  vm_compute. reflexivity.
Defined.

Lemma nothing_queued_once_bridged_witness :
  messageQueue (run [Invoke "EBtick"; Opened; Closed; Invoke "Llost"]) = [].
Proof.
  apply (nothing_queued_once_bridged
           [Invoke "EBtick"; Opened; Closed; Invoke "Llost"]);
    vm_compute; reflexivity.
Defined.

Lemma get_host_discovers_once_witness :
  get_host script_URL other_page script_locator = Some script_locator.
Proof.
  apply (get_host_discovers_once script_URL script_page other_page
           script_locator); [|reflexivity].
  reflexivity.
Defined.

Lemma notifications_reach_the_event_system_witness :
  Client.handleMessage ("n" ++ ping_payload)
  = Client.wails_EventsNotify ping_payload.
Proof.
  apply (proj1 (@notifications_reach_the_event_system quiet quiet_server B
                  ("n" ++ ping_payload)) A ("EE" ++ ping_payload)).
  - vm_compute. lia.
  - reflexivity.
  - apply elem_of_app. left.
    apply (@elem_of_broadcastExcludingSender quiet).
    split; [reflexivity|]. split; [discriminate|]. vm_compute. eauto.
Defined.

Lemma reloads_reach_the_browsers_witness :
  Message_Send C "reloadapp" ∈ WindowReloadApp (Ext := quiet) quiet_server.
Proof.
  apply (proj2 (proj2 (proj2 (@reloads_reach_the_browsers quiet quiet_server)))
           C); [discriminate|]. vm_compute. eauto.
Defined.

Lemma ipcJS_by_user_agent_witness :
  ∃ server script,
    NewDevAssetServer "wails.io"
      (Ok {| appendSpinnerToBody := false; ipcJS := None |}) ipc_scripts
    = Ok server
    ∧ ipcJS server = Some script
    ∧ script "Mozilla/5.0 wails.io" = "desktop"
    ∧ script "Mozilla/5.0 Firefox/130.0" = "websocket".
Proof.
  destruct (ipcJS_by_user_agent "wails.io"
              (Ok {| appendSpinnerToBody := false; ipcJS := None |})
              ipc_scripts)
    as (server & script & Hnew & _ & Hipc & Hdesktop & _).
  exists server, script. split; [exact Hnew|]. split; [exact Hipc|].
  split.
  - apply (Hdesktop "Mozilla/5.0 " "").
  - cbn in Hnew, Hipc. injection Hnew as <-. cbn in Hipc.
    injection Hipc as <-. vm_compute. reflexivity.
Defined.

End MoreRuns.

(** ** A first session *)
Section FirstSession.
Import DevServer.
Context `{Ext : Externals}.

(** On a server just constructed, the session of a first connection
    leaves the registry empty again. *)
Lemma first_session_leaves_empty_registry (s : dispatcher_state) (c : N)
    (conn : list string) :
  ∃ d' effects,
    handleIPCWebSocket (NewFrontend s) c conn = Some (d', effects)
    ∧ websocketClients d' = ∅.
Proof.
  destruct (handleIPCWebSocket_leaves_no_trace (NewFrontend s) c conn)
    as (d' & effects & E & Hclients).
  exists d', effects. split; [done|]. rewrite Hclients.
  cbn [NewFrontend websocketClients]. apply delete_empty.
Qed.

End FirstSession.
